(** * FortilogDecoder: a shallow embedding of [fortilog_decoder.py]

    The development follows the Python module function by function:
    the runtime operations the decoder relies on (indexing, slicing,
    [int.from_bytes], [struct.unpack_from], [bytes.split], stream reads),
    then [output_info], [output_logs], [parse_tlc], [decode_llogv5],
    [process_file] and [process_dir].  Python integers are unbounded, hence
    modelled by [Z];
    [bytes] and [bytearray] values are lists of [Byte.byte]; a raised
    exception is an explicit result.  The two LZ4 decompressors and the text
    codec of the output stream live outside the module and are taken as a
    parameter of the development. *)

From Stdlib Require Import ZArith List Lia Bool.
From Stdlib.Strings Require Import String Byte.
Import ListNotations.
Local Open Scope Z_scope.

Set Implicit Arguments.

(** ** Results of Python computations *)

Inductive exn : Type :=
| IndexError
| ValueError
| UnboundLocalError
| StructError
| UnicodeDecodeError
| LZ4Error
| AttributeError.

(** A computation returns, raises, or is cut off by the bound put on the
    number of loop iterations ([OutOfFuel]). *)
Inductive res (A : Type) : Type :=
| Ok (a : A)
| Raise (e : exn)
| OutOfFuel.

Arguments Ok {A} a.
Arguments Raise {A} e.
Arguments OutOfFuel {A}.

Definition res_bind {A B : Type} (m : res A) (k : A -> res B) : res B :=
  match m with
  | Ok a => k a
  | Raise e => Raise e
  | OutOfFuel => OutOfFuel
  end.

Declare Scope res_scope.
Delimit Scope res_scope with res.
Notation "x <- m ;; k" := (res_bind m (fun x => k))
  (at level 61, m at next level, right associativity) : res_scope.
Notation "' pat <- m ;; k" := (res_bind m (fun x => match x with pat => k end))
  (at level 61, pat pattern, m at next level, right associativity) : res_scope.

(** ** Bytes, indexing and slicing *)

Definition bytes : Type := list byte.

Definition byte_val (b : byte) : Z := Z.of_N (Byte.to_N b).

Definition len {A : Type} (l : list A) : Z := Z.of_nat (List.length l).

(** [b[i]]: a negative index counts from the end; outside the sequence the
    access raises [IndexError]. *)
Definition py_nth {A : Type} (l : list A) (i : Z) : res A :=
  let j := if i <? 0 then i + len l else i in
  if j <? 0 then Raise IndexError
  else match nth_error l (Z.to_nat j) with
       | Some x => Ok x
       | None => Raise IndexError
       end.

Definition py_index (b : bytes) (i : Z) : res Z :=
  match py_nth b i with
  | Ok x => Ok (byte_val x)
  | Raise e => Raise e
  | OutOfFuel => OutOfFuel
  end.

(** Slice bounds: negative bounds count from the end, and every bound is
    clipped to the sequence. *)
Definition clip (n i : Z) : Z :=
  if i <? 0 then Z.max 0 (i + n) else Z.min i n.

(** [l[lo:hi]]; never raises. *)
Definition py_slice {A : Type} (l : list A) (lo hi : Z) : list A :=
  let a := clip (len l) lo in
  let b := clip (len l) hi in
  firstn (Z.to_nat (b - a)) (skipn (Z.to_nat a) l).

(** [int.from_bytes(b, "big")] and [int.from_bytes(b, "little")]. *)
Definition int_from_bytes_big (b : bytes) : Z :=
  fold_left (fun acc x => acc * 256 + byte_val x) b 0.

Definition int_from_bytes_little (b : bytes) : Z :=
  fold_right (fun x acc => byte_val x + 256 * acc) 0 b.

(** ** [struct.unpack_from] *)

(** The [size] bytes a format reads at [offset]; a negative offset counts
    from the end of the buffer, and every way of leaving the buffer raises
    [struct.error]. *)
Definition unpack_window (size : Z) (buffer : bytes) (offset : Z) : res bytes :=
  let n := len buffer in
  if offset <? 0 then
    if 0 <? offset + size then Raise StructError
    else if offset + n <? 0 then Raise StructError
    else Ok (firstn (Z.to_nat size) (skipn (Z.to_nat (offset + n)) buffer))
  else if n - offset <? size then Raise StructError
  else Ok (firstn (Z.to_nat size) (skipn (Z.to_nat offset) buffer)).

(** Two's complement reading of an unsigned [bits]-bit value. *)
Definition signed (bits : Z) (u : Z) : Z :=
  if u <? 2 ^ (bits - 1) then u else u - 2 ^ bits.

(** Format [">h"]: big-endian signed 16-bit integer. *)
Definition unpack_h (buffer : bytes) (offset : Z) : res Z :=
  (w <- unpack_window 2 buffer offset ;; Ok (signed 16 (int_from_bytes_big w)))%res.

(** Format [">I"]: big-endian unsigned 32-bit integer. *)
Definition unpack_I (buffer : bytes) (offset : Z) : res Z :=
  (w <- unpack_window 4 buffer offset ;; Ok (int_from_bytes_big w))%res.

(** Format [">i"]: big-endian signed 32-bit integer. *)
Definition unpack_i (buffer : bytes) (offset : Z) : res Z :=
  (w <- unpack_window 4 buffer offset ;; Ok (signed 32 (int_from_bytes_big w)))%res.

(** Format [">l"]: with the [">"] prefix sizes are the standard ones, and a
    standard [l] is a signed 32-bit integer. *)
Definition unpack_l (buffer : bytes) (offset : Z) : res Z :=
  (w <- unpack_window 4 buffer offset ;; Ok (signed 32 (int_from_bytes_big w)))%res.

(** Format [">qq"]: two big-endian signed 64-bit integers. *)
Definition unpack_qq (buffer : bytes) (offset : Z) : res (Z * Z) :=
  (w <- unpack_window 16 buffer offset ;;
   Ok (signed 64 (int_from_bytes_big (firstn 8 w)),
       signed 64 (int_from_bytes_big (skipn 8 w))))%res.

(** ** [bytes.split] *)

Fixpoint starts_with (sep s : bytes) : bool :=
  match sep, s with
  | [], _ => true
  | _ :: _, [] => false
  | a :: sep', b :: s' => Byte.eqb a b && starts_with sep' s'
  end.

Definition bytes_eqb (a b : bytes) : bool :=
  starts_with a b && starts_with b a.

(** [s.find(sep)]: the lowest index at which [sep] occurs in [s]. *)
Fixpoint bytes_find (sep s : bytes) : option nat :=
  match s with
  | [] => if starts_with sep [] then Some O else None
  | _ :: s' =>
      if starts_with sep s then Some O else option_map S (bytes_find sep s')
  end.

(** [s.split(sep)] for a non-empty separator: cut at the lowest occurrence,
    resume the search behind it.  Each cut consumes at least one byte, so
    [length s] cuts are never exceeded. *)
Fixpoint split_upto (cuts : nat) (sep s : bytes) : list bytes :=
  match cuts with
  | O => [s]
  | S cuts' =>
      match bytes_find sep s with
      | None => [s]
      | Some j =>
          firstn j s :: split_upto cuts' sep (skipn (j + List.length sep) s)
      end
  end.

Definition py_split (sep s : bytes) : list bytes :=
  split_upto (List.length s) sep s.

(** ** Module constants *)

Definition debug : bool := false.

Definition magic : bytes := [xec; xcf].
Definition tlc_magic : bytes := [xaa; x01].

Definition tlc_fields : list string :=
  [EmptyString; "devid"; "devname"; "vdom"; "devtype"; "logtype"; "tmzone";
   "fazid"; "srcip"; "unused?"; "unused?"; "num-logs"; "unzip-len";
   "incr-zip"; "unzip-len-p"; "prefix"; "zbuf"; "logs"]%string.

(** The module-level [file_ptr_pos]; [decode_llogv5] assigns a local
    variable of the same name and never this one. *)
Definition file_ptr_pos : Z := 0.

(** ** Streams, messages and effects *)

(** What the decoder looks at in a file object: its [name] and whether it
    is [sys.stdout]. *)
Record fileobj : Type := {
  name : string;
  is_sys_stdout : bool
}.

(** The object [process_file] opens and [decode_llogv5] reads from.  What
    [gzip.open] returns has the attribute [name]; the reader [zstd.open]
    returns has none, and [name (as_file r)] is never looked at for it. *)
Record reader : Type := {
  as_file : fileobj;
  has_name : bool
}.

(** A file object with its name, as a stream to read from. *)
Definition named (f : fileobj) : reader :=
  {| as_file := f; has_name := true |}.

Coercion named : fileobj >-> reader.

(** [instream.name]. *)
Definition stream_name (r : reader) : res string :=
  if has_name r then Ok (name (as_file r)) else Raise AttributeError.

(** One constructor per f-string of the module, with the values it
    interpolates. *)
Inductive message : Type :=
| FoundLz4Entry (offset : Z)
| EntryHoldsLogs (entrycount : Z)
| SkippedEntry (offset : Z) (stream_name : string)
| FoundTlcEntry (offset : Z)
| DecodedTlcLogs (count : Z)
| UnknownHeader (sourcefile : string) (logtype : bytes) (offset : Z)
| DoneFile (sourcefile : string) (count : Z)
| TlcHoldsLogs (count : Z)
| TlcUndecodable (offset : Z) (stream_name : string)
| SkippedFile (sourcefile : string).

Inductive event : Type :=
| Printed (m : message)
| Logged (m : message)
| WroteText (entry : string)
| WroteBytes (data : bytes).

(** The libraries the module calls: [lz4.block.decompress(source, size)],
    [lz4.frame.decompress(data, flag)] and [bytes.decode(encoding)] for the
    encoding of the output stream.  [None] stands for a raised exception. *)
Record library : Type := {
  lz4_block_decompress : bytes -> Z -> option bytes;
  lz4_frame_decompress : bytes -> Z -> option bytes;
  bytes_decode : bytes -> option string
}.

(** [output_info]: debug messages are dropped unless [debug] is set; the
    others go to the log file when the given stream is [sys.stdout], and are
    printed otherwise. *)
Definition output_info (fstr : message) (outstream : fileobj)
    (typedebug : bool) : list event :=
  if typedebug && negb debug then []
  else if is_sys_stdout outstream then [Logged fstr]
  else [Printed fstr].

(** ** [parse_tlc] *)

(** The local variables of [parse_tlc]; [value] and [array] are unbound
    until a field of the matching category has been decoded. *)
Record tlc_locals : Type := {
  pointer : Z;
  lunzipped : Z;
  value : option Z;
  array : option bytes
}.

Definition tlc_initial : tlc_locals :=
  {| pointer := 0; lunzipped := 0; value := None; array := None |}.

Definition read_local {A : Type} (v : option A) : res A :=
  match v with
  | Some a => Ok a
  | None => Raise UnboundLocalError
  end.

(** The length prefix of an array field and the cursor behind it. *)
Definition read_larray (body : bytes) (typehigh p : Z) : res (Z * Z) :=
  (if typehigh =? 0 then l <- py_index body p ;; Ok (l, p + 1)
   else if typehigh =? 1 then l <- unpack_h body p ;; Ok (l, p + 2)
   else l <- unpack_I body p ;; Ok (l, p + 4))%res.

(** The first [if] chain of the loop body: decode the value at cursor [p]
    as [typehigh] says. *)
Definition decode_value (body : bytes) (typehigh p : Z) (st : tlc_locals)
    : res tlc_locals :=
  (if (0 <=? typehigh) && (typehigh <=? 2) then
     ' (larray, p) <- read_larray body typehigh p ;;
     Ok {| pointer := p + larray; lunzipped := lunzipped st;
           value := value st;
           array := Some (py_slice body p (p + larray)) |}
   else if typehigh =? 3 then
     v <- py_index body p ;;
     Ok {| pointer := p + 1; lunzipped := lunzipped st;
           value := Some v; array := array st |}
   else if typehigh =? 4 then
     v <- unpack_h body p ;;
     Ok {| pointer := p + 2; lunzipped := lunzipped st;
           value := Some v; array := array st |}
   else if typehigh =? 5 then
     v <- unpack_i body p ;;
     Ok {| pointer := p + 4; lunzipped := lunzipped st;
           value := Some v; array := array st |}
   else if typehigh =? 6 then
     v <- unpack_l body p ;;
     Ok {| pointer := p + 8; lunzipped := lunzipped st;
           value := Some v; array := array st |}
   else if typehigh =? 7 then
     ' (vala, valb) <- unpack_qq body p ;;
     Ok {| pointer := p + 16; lunzipped := lunzipped st;
           value := Some (Z.lor (Z.shiftl vala 64) valb); array := array st |}
   else
     Ok {| pointer := p; lunzipped := lunzipped st;
           value := value st; array := array st |})%res.

(** Type byte, field id, then the value. *)
Definition decode_field (body : bytes) (st : tlc_locals)
    : res (Z * tlc_locals) :=
  (b0 <- py_index body (pointer st) ;;
   let typehigh := Z.shiftr b0 4 in
   let typelow := Z.land b0 15 in
   let p := pointer st + 1 in
   fieldid <- py_index body p ;;
   let p := p + 1 in
   st' <- decode_value body typehigh p st ;;
   Ok (fieldid, st'))%res.

Inductive tlc_ctl : Type :=
| TlcNext (st : tlc_locals)
| TlcReturn (buffer : bytes).

Section Decoder.

Variable L : library.

(** The second [if] chain of the loop body: look the field id up in
    [tlc_fields] and act on the three names of interest. *)
Definition act_on_field (instream outstream : fileobj) (fieldid : Z)
    (st : tlc_locals) : res (tlc_ctl * list event) :=
  (fname <- py_nth tlc_fields fieldid ;;
   if (fname =? "unzip-len")%string then
     v <- read_local (value st) ;;
     Ok (TlcNext {| pointer := pointer st; lunzipped := v;
                    value := value st; array := array st |}, [])
   else if (fname =? "num-logs")%string then
     v <- read_local (value st) ;;
     Ok (TlcNext st, output_info (TlcHoldsLogs v) outstream true)
   else if (fname =? "zbuf")%string then
     if lunzipped st =? 0 then
       Ok (TlcReturn [],
           output_info (TlcUndecodable file_ptr_pos (name instream))
                       outstream false)
     else
       a <- read_local (array st) ;;
       if len a =? 0 then
         Ok (TlcReturn [],
             output_info (TlcUndecodable file_ptr_pos (name instream))
                         outstream false)
       else
         match lz4_frame_decompress L a (lunzipped st) with
         | Some decompressed => Ok (TlcReturn decompressed, [])
         | None =>
             Ok (TlcReturn [],
                 output_info (SkippedEntry file_ptr_pos (name instream))
                             outstream false)
         end
   else Ok (TlcNext st, []))%res.

Definition tlc_step (body : bytes) (instream outstream : fileobj)
    (st : tlc_locals) : res (tlc_ctl * list event) :=
  (' (fieldid, st') <- decode_field body st ;;
   act_on_field instream outstream fieldid st')%res.

(** The [while pointer < len(body)] loop, at most [fuel] iterations;
    [evs] are the events emitted so far. *)
Fixpoint tlc_loop (fuel : nat) (body : bytes) (instream outstream : fileobj)
    (st : tlc_locals) (evs : list event) : res bytes * list event :=
  match fuel with
  | O => (OutOfFuel, evs)
  | S fuel' =>
      if pointer st <? len body then
        match tlc_step body instream outstream st with
        | Ok (TlcNext st', e) =>
            tlc_loop fuel' body instream outstream st' (evs ++ e)
        | Ok (TlcReturn buffer, e) => (Ok buffer, evs ++ e)
        | Raise x => (Raise x, evs)
        | OutOfFuel => (OutOfFuel, evs)
        end
      else (Ok [], evs)
  end.

Definition parse_tlc (fuel : nat) (body : bytes)
    (instream outstream : fileobj) : res bytes * list event :=
  tlc_loop fuel body instream outstream tlc_initial [].

End Decoder.

(** ** The entries of a tlc record *)

(** [bytearray(map(ord, "date="))]. *)
Definition date_marker : bytes := list_byte_of_string "date=".

(** One pass of the [for raw_entry in tlc.split(b"\x00")] loop: the entry
    appended for [raw_entry], if any. *)
Definition tlc_entry (raw_entry : bytes) : option bytes :=
  match py_split date_marker raw_entry with
  | [_; rest] => Some (date_marker ++ rest)
  | _ => None
  end.

Fixpoint collect_entries (raw_entries : list bytes) : list bytes :=
  match raw_entries with
  | [] => []
  | raw_entry :: more =>
      match tlc_entry raw_entry with
      | Some entry => entry :: collect_entries more
      | None => collect_entries more
      end
  end.

Definition tlc_entries (tlc : bytes) : list bytes :=
  collect_entries (py_split [x00] tlc).

(** ** The entries of an lz4 record *)

(** [range(0, stop, 2)]. *)
Definition range2 (stop : Z) : list Z :=
  map (fun k => 2 * Z.of_nat k) (seq 0 (Z.to_nat ((stop + 1) / 2))).

(** The [for no in range(0, lentrycounts, 2)] loop; [ptr] is the local
    variable [pointer] of [decode_llogv5]. *)
Fixpoint slice_entries (nos : list Z) (entrieslengths decompressed : bytes)
    (ptr : Z) : list bytes :=
  match nos with
  | [] => []
  | no :: nos' =>
      let l := int_from_bytes_big (py_slice entrieslengths no (no + 2)) in
      py_slice decompressed ptr (ptr + l)
        :: slice_entries nos' entrieslengths decompressed (ptr + l)
  end.

Definition lz4_entries (entrycount lentrycounts : Z)
    (entrieslengths decompressed : bytes) : list bytes :=
  if 1 <? entrycount then
    slice_entries (range2 lentrycounts) entrieslengths decompressed 0
  else if entrycount =? 1 then [decompressed]
  else [].

(** ** [decode_llogv5] *)

(** What changes while a stream is scanned: the read position of
    [instream], the local counter [logentries], and everything written or
    printed so far. *)
Record scan_state : Type := {
  position : Z;
  logentries : Z;
  emitted : list event
}.

Definition M (A : Type) : Type := scan_state -> res A * scan_state.

Definition ret {A : Type} (a : A) : M A := fun s => (Ok a, s).

Definition bind {A B : Type} (m : M A) (k : A -> M B) : M B :=
  fun s =>
    match m s with
    | (Ok a, s') => k a s'
    | (Raise e, s') => (Raise e, s')
    | (OutOfFuel, s') => (OutOfFuel, s')
    end.

Declare Scope scan_scope.
Delimit Scope scan_scope with scan.
Notation "x <- m ;; k" := (bind m (fun x => k))
  (at level 61, m at next level, right associativity) : scan_scope.
Notation "m ;;; k" := (bind m (fun _ => k))
  (at level 61, right associativity) : scan_scope.

Definition lift {A : Type} (r : res A) : M A := fun s => (r, s).

Definition emit (evs : list event) : M unit :=
  fun s => (Ok tt, {| position := position s; logentries := logentries s;
                      emitted := emitted s ++ evs |}).

Definition count_logs (k : Z) : M unit :=
  fun s => (Ok tt, {| position := position s; logentries := logentries s + k;
                      emitted := emitted s |}).

Definition get_logentries : M Z := fun s => (Ok (logentries s), s).

(** [try: m except Exception: handler]; what [m] did before raising
    stays done. *)
Definition try_except {A : Type} (m handler : M A) : M A :=
  fun s =>
    match m s with
    | (Raise _, s') => handler s'
    | r => r
    end.

Inductive loop_ctl : Type :=
| Continue
| Break.

Definition newline : string := String (Ascii.ascii_of_nat 10) EmptyString.

(** What [decode_llogv5] keeps of the header and body of an lz4 record. *)
Record lz4_parts : Type := {
  part_entrycount : Z;
  part_lentrycounts : Z;
  part_ldecompressed : Z;
  part_entrieslengths : bytes;
  part_compressed : bytes
}.

Section Scanner.

Variable L : library.

(** The bound handed to every call of [parse_tlc]. *)
Variable fuel : nat.

(** The bytes [instream] yields when read from position 0. *)
Variable data : bytes.

Variable instream : reader.
Variable sourcefile : string.
Variable outstream : fileobj.

(** [instream.tell()]. *)
Definition tell : M Z := fun s => (Ok (position s), s).

(** [instream.read(n)]: at most [n] bytes, everything left for [n = -1],
    [ValueError] below that. *)
Definition read (n : Z) : M bytes :=
  fun s =>
    if n <? -1 then (Raise ValueError, s)
    else
      let rest := skipn (Z.to_nat (position s)) data in
      let chunk := if n <? 0 then rest else firstn (Z.to_nat n) rest in
      (Ok chunk, {| position := position s + len chunk;
                    logentries := logentries s; emitted := emitted s |}).

(** [output_logs]: text to [sys.stdout], bytes to any other stream. *)
Fixpoint output_logs (entrieslist : list bytes) : M unit :=
  match entrieslist with
  | [] => ret tt
  | entry :: more =>
      (if is_sys_stdout outstream then
         match bytes_decode L entry with
         | Some text => emit [WroteText (text ++ newline)]
         | None => lift (Raise UnicodeDecodeError)
         end
       else emit [WroteBytes (entry ++ [x0a])]) ;;;
      output_logs more
  end%scan.

(** The body of the [try] statement of an lz4 record. *)
Definition emit_lz4_entries (entrycount lentrycounts ldecompressed : Z)
    (entrieslengths compressed : bytes) : M unit :=
  (decompressed <-
     lift (match lz4_block_decompress L compressed (ldecompressed + 1) with
           | Some d => Ok d
           | None => Raise LZ4Error
           end) ;;
   let entries :=
     lz4_entries entrycount lentrycounts entrieslengths decompressed in
   count_logs (len entries) ;;;
   output_logs entries)%scan.

(** The first variable part of an lz4 record (header and body), as the
    values the rest of the branch uses. *)
Definition read_lz4_parts : M lz4_parts :=
  (head <- read 16 ;;
   h0 <- lift (py_index head 0) ;;
   let flag := Z.land (Z.shiftr h0 2) 1 in
   ldevid <- lift (py_index head 3) ;;
   ldevname <- lift (py_index head 4) ;;
   lvdom <- lift (py_index head 5) ;;
   let entrycount := int_from_bytes_big (py_slice head 6 8) in
   emit (output_info (EntryHoldsLogs entrycount) outstream true) ;;;
   let lentrycounts := entrycount * 2 in
   let lsomething := if flag =? 0 then 0 else lentrycounts in
   let lcompressed := int_from_bytes_big (py_slice head 8 10) in
   let ldecompressed := int_from_bytes_big (py_slice head 10 12) in
   let lascii := ldevid + ldevname + lvdom in
   body <- read (lascii + lentrycounts + lsomething + lcompressed) ;;
   let compressed_from := lascii + lentrycounts + lsomething in
   let entrieslengths := py_slice body lascii (lascii + lentrycounts) in
   let compressed_to := compressed_from + lcompressed in
   let compressed := py_slice body compressed_from compressed_to in
   ret {| part_entrycount := entrycount;
          part_lentrycounts := lentrycounts;
          part_ldecompressed := ldecompressed;
          part_entrieslengths := entrieslengths;
          part_compressed := compressed |})%scan.

(** The second variable part, skipped: a little-endian length and that
    many bytes. *)
Definition skip_lz4_trailer : M unit :=
  (head2 <- read 2 ;;
   let body2 := int_from_bytes_little head2 in
   read body2 ;;;
   ret tt)%scan.

(** The lz4 branch.  The handler of its [try] statement formats its message
    from [instream.name] before it emits it: on a stream without that
    attribute the handler itself raises, and the exception leaves
    [decode_llogv5]. *)
Definition lz4_record (file_ptr_pos : Z) : M loop_ctl :=
  (emit (output_info (FoundLz4Entry file_ptr_pos) outstream true) ;;;
   parts <- read_lz4_parts ;;
   decoded <-
     try_except
       (emit_lz4_entries (part_entrycount parts) (part_lentrycounts parts)
                         (part_ldecompressed parts)
                         (part_entrieslengths parts)
                         (part_compressed parts) ;;;
        ret true)
       (instream_name <- lift (stream_name instream) ;;
        emit (output_info (SkippedEntry file_ptr_pos instream_name)
                          outstream false) ;;;
        ret false) ;;
   if decoded : bool then skip_lz4_trailer ;;; ret Continue
   else ret Continue)%scan.

(** The call [parse_tlc(body,outstream,instream)] of the tlc branch, with
    its arguments in the order the call gives them; what it emits joins the
    events of the scan. *)
Definition call_parse_tlc (body : bytes) : M bytes :=
  fun s =>
    let '(r, evs) := parse_tlc L fuel body outstream (as_file instream) in
    (r, {| position := position s; logentries := logentries s;
           emitted := emitted s ++ evs |}).

Definition tlc_record (file_ptr_pos : Z) : M loop_ctl :=
  (emit (output_info (FoundTlcEntry file_ptr_pos) outstream true) ;;;
   read 2 ;;;
   lbytes <- read 4 ;;
   let lbody := int_from_bytes_big lbytes in
   body <- read (lbody - 8) ;;
   tlc <- call_parse_tlc body ;;
   let entries := tlc_entries tlc in
   count_logs (len entries) ;;;
   emit (output_info (DecodedTlcLogs (len entries)) outstream true) ;;;
   output_logs entries ;;;
   ret Continue)%scan.

(** One pass of the [while (True)] loop. *)
Definition scan_iteration : M loop_ctl :=
  (file_ptr_pos <- tell ;;
   logtype <- read 2 ;;
   if bytes_eqb logtype magic then lz4_record file_ptr_pos
   else if bytes_eqb logtype tlc_magic then tlc_record file_ptr_pos
   else if bytes_eqb logtype [x00; x00] || bytes_eqb logtype [x00] then
     ret Continue
   else if 0 <? len logtype then
     emit (output_info (UnknownHeader sourcefile logtype file_ptr_pos)
                       outstream false) ;;;
     ret Break
   else
     n <- get_logentries ;;
     emit (output_info (DoneFile sourcefile n) outstream false) ;;;
     ret Break)%scan.

(** The loop, at most [rounds] passes. *)
Fixpoint scan_loop (rounds : nat) : M unit :=
  match rounds with
  | O => lift OutOfFuel
  | S rounds' =>
      (c <- scan_iteration ;;
       match c with
       | Continue => scan_loop rounds'
       | Break => ret tt
       end)%scan
  end.

Definition scan_initial : scan_state :=
  {| position := 0; logentries := 0; emitted := [] |}.

Definition decode_llogv5 (rounds : nat) : res unit * scan_state :=
  scan_loop rounds scan_initial.

(** [sourcefile.endswith(suffix)]. *)
Definition endswith (s suffix : string) : bool :=
  starts_with (rev (list_byte_of_string suffix)) (rev (list_byte_of_string s)).

(** [process_file], where [instream] and [data] stand for the stream that
    [gzip.open] or [zstd.open] gives for [sourcefile] (see [opened] below
    for which of the two has a [name]): a name with neither extension, and
    whatever exception leaves [decode_llogv5], end in the message that the
    file was skipped. *)
Definition process_file (rounds : nat) : res unit * scan_state :=
  if endswith sourcefile ".gz" || endswith sourcefile ".zst" then
    match decode_llogv5 rounds with
    | (Raise _, s) =>
        (Ok tt, {| position := position s; logentries := logentries s;
                   emitted := emitted s ++
                     output_info (SkippedFile sourcefile) outstream false |})
    | r => r
    end
  else
    (Ok tt, {| position := 0; logentries := 0;
               emitted := output_info (SkippedFile sourcefile)
                                      outstream false |}).

End Scanner.

(** What [process_file] opens for [sourcefile]: [gzip.open] for a name that
    ends in [.gz], whose result carries the file name as [name], and
    [zstd.open] otherwise, whose result has no [name]. *)
Definition opened (sourcefile : string) : reader :=
  {| as_file := {| name := sourcefile; is_sys_stdout := false |};
     has_name := endswith sourcefile ".gz" |}.

(** ** [process_dir] *)

Definition gz_output_file : bool := false.

(** [os.path.join(a, b)] as [posixpath] computes it. *)
Definition path_join (a b : string) : string :=
  (if String.prefix "/" b then b
   else if (a =? EmptyString) || endswith a "/" then a ++ b
   else a ++ "/" ++ b)%string.

(** The two messages of [process_dir], beside those of the file being
    processed. *)
Inductive dir_message : Type :=
| FromFile (m : message)
| SkippedExisting (path : string)
| DeletedIncomplete (tfile : string).

(** The target directory as [os.path.exists], [open], the writes to the
    open file and [os.remove] see it, and what has been printed. *)
Record dir_state : Type := {
  target_files : string -> option bytes;
  console : list dir_message
}.

Definition write_file (files : string -> option bytes) (path : string)
    (content : bytes) : string -> option bytes :=
  fun p => if (p =? path)%string then Some content else files p.

Definition remove_file (files : string -> option bytes) (path : string)
    : string -> option bytes :=
  fun p => if (p =? path)%string then None else files p.

(** What a run of [process_file] leaves in the file it writes to, and what
    it prints. *)
Definition file_content (evs : list event) : bytes :=
  flat_map (fun e => match e with WroteBytes b => b | _ => [] end) evs.

Definition printed (evs : list event) : list message :=
  flat_map (fun e => match e with Printed m => [m] | _ => [] end) evs.

Inductive dir_ctl : Type :=
| NextFile
| EndDir.

Section Directory.

Variable L : library.

(** The bounds handed to every call of [process_file]. *)
Variable fuel : nat.
Variable rounds : nat.

Variables sourcedir targetdir : string.

(** One pass of [for srcfile in src]; [srcfile] is the name of the entry
    and the bytes its decompressed stream gives, its [path] is
    [os.path.join(sourcedir, name)].  With [gz_output_file] set the target
    is written through [gzip]; its content here is what is written to the
    stream.  An exception leaving [process_file] would end the loop in the
    handler of [process_dir], with the [tfile] of this pass. *)
Definition process_srcfile (srcfile : string * bytes) (st : dir_state)
    : res dir_ctl * dir_state :=
  let srcname := fst srcfile in
  let srcpath := path_join sourcedir srcname in
  let tfile :=
    if gz_output_file then path_join targetdir (srcname ++ ".csv.gz")
    else path_join targetdir (srcname ++ ".csv") in
  match target_files st tfile with
  | Some _ =>
      (Ok NextFile,
       {| target_files := target_files st;
          console := console st ++ [SkippedExisting srcpath] |})
  | None =>
      let t := {| name := tfile; is_sys_stdout := false |} in
      let s := opened srcpath in
      let '(r, final) := process_file L fuel (snd srcfile) s srcpath t rounds in
      let files := write_file (target_files st) tfile
                              (file_content (emitted final)) in
      let said := console st ++ map FromFile (printed (emitted final)) in
      match r with
      | Ok _ => (Ok NextFile, {| target_files := files; console := said |})
      | Raise _ =>
          (Ok EndDir,
           {| target_files := remove_file files tfile;
              console := said ++ [DeletedIncomplete tfile] |})
      | OutOfFuel => (OutOfFuel, {| target_files := files; console := said |})
      end
  end.

(** [process_dir] over the entries [os.scandir(sourcedir)] yields.  The
    handler of its [try] statement also catches [KeyboardInterrupt] and the
    errors of the operating system, which have no counterpart here. *)
Fixpoint process_dir (src : list (string * bytes)) (st : dir_state)
    : res unit * dir_state :=
  match src with
  | [] => (Ok tt, st)
  | srcfile :: more =>
      match process_srcfile srcfile st with
      | (Ok NextFile, st') => process_dir more st'
      | (Ok EndDir, st') => (Ok tt, st')
      | (Raise x, st') => (Raise x, st')
      | (OutOfFuel, st') => (OutOfFuel, st')
      end
  end.

(** The target file [process_dir] computes for the entry [srcname]. *)
Definition target_of (srcname : string) : string :=
  path_join targetdir
            (srcname ++ (if gz_output_file then ".csv.gz" else ".csv")).

(** The stream [process_file] opens for the entry [srcname], and the file
    object [process_dir] opens for its target. *)
Definition source_stream (srcname : string) : reader :=
  opened (path_join sourcedir srcname).

Definition target_stream (srcname : string) : fileobj :=
  {| name := target_of srcname; is_sys_stdout := false |}.

End Directory.

(** * Vocabulary of the statements *)

(** ** Walks of [parse_tlc] *)

Section Walk.

Variable L : library.
Variable body : bytes.
Variables instream outstream : fileobj.

(** [tlc_walk P n st st']: the loop gets from [st] to [st'] through [n]
    fields whose ids all satisfy [P], none of which ends the walk. *)
Inductive tlc_walk (P : Z -> Prop) : nat -> tlc_locals -> tlc_locals -> Prop :=
| walk_here : forall st, tlc_walk P O st st
| walk_field : forall n st fieldid st1 st2 st3 e,
    decode_field body st = Ok (fieldid, st1) ->
    P fieldid ->
    act_on_field L instream outstream fieldid st1 = Ok (TlcNext st2, e) ->
    tlc_walk P n st2 st3 ->
    tlc_walk P (S n) st st3.

Definition any_field (fieldid : Z) : Prop := True.

Definition not_unzip_len (fieldid : Z) : Prop :=
  py_nth tlc_fields fieldid <> Ok "unzip-len"%string.

(** The error message of a [zbuf] field that cannot be decoded, as routed
    by [output_info]. *)
Definition undecodable_event : event :=
  let m := TlcUndecodable file_ptr_pos (name instream) in
  if is_sys_stdout outstream then Logged m else Printed m.

End Walk.

(** The field at the cursor of [st] is of category 1 and its length prefix
    reads below zero. *)
Definition negative_length_at (body : bytes) (st : tlc_locals) : Prop :=
  exists b0 l,
    py_index body (pointer st) = Ok b0 /\ Z.shiftr b0 4 = 1 /\
    unpack_h body (pointer st + 1 + 1) = Ok l /\ l < 0.

(** ** Markers, length tables and scans *)

(** The number of places at which [sep] occurs in [s]. *)
Fixpoint occurrences (sep s : bytes) : nat :=
  match s with
  | [] => O
  | _ :: s' => ((if starts_with sep s then 1 else 0) + occurrences sep s')%nat
  end.

(** What [tlc_entries] contributes for one piece of the payload. *)
Definition kept (raw_entry : bytes) : list bytes :=
  match tlc_entry raw_entry with
  | Some entry => [entry]
  | None => []
  end.

(** The length table of an lz4 record as the loop reads it: entry [k] is
    the big-endian integer in bytes [2k] and [2k+1] of [entrieslengths]. *)
Definition length_table (entrycount : Z) (entrieslengths : bytes) : list Z :=
  map (fun k => int_from_bytes_big
                  (py_slice entrieslengths (2 * Z.of_nat k)
                            (2 * Z.of_nat k + 2)))
      (seq 0 (Z.to_nat entrycount)).

Definition total (lengths : list Z) : Z := fold_right Z.add 0 lengths.

(** Consecutive slices of [buffer] of the given lengths. *)
Fixpoint chop (lengths : list Z) (buffer : bytes) : list bytes :=
  match lengths with
  | [] => []
  | l :: more =>
      firstn (Z.to_nat l) buffer :: chop more (skipn (Z.to_nat l) buffer)
  end.

(** [sep.join(pieces)]. *)
Fixpoint py_join (sep : bytes) (pieces : list bytes) : bytes :=
  match pieces with
  | [] => []
  | piece :: more =>
      match more with
      | [] => piece
      | _ :: _ => piece ++ sep ++ py_join sep more
      end
  end.

(** The [width] bytes of [body] at cursor [p]. *)
Definition bytes_at (body : bytes) (p width : Z) : bytes :=
  firstn (Z.to_nat width) (skipn (Z.to_nat p) body).

(** The position behind the trailer that starts at [p]: its two length
    bytes (little-endian) and as many bytes as they say, or what is left of
    the stream. *)
Definition after_trailer (data : bytes) (p : Z) : Z :=
  let head2 := bytes_at data p 2 in
  p + len head2
    + len (bytes_at data (p + len head2) (int_from_bytes_little head2)).

(** The body the tlc branch hands to [parse_tlc] for a record whose tag is
    at [p]: behind the tag two bytes are skipped, four give the length
    field, and the body is that length less 8, or all that is left of the
    stream when that is -1 (below -1 the read raises and nothing is
    parsed). *)
Definition tlc_body_at (data : bytes) (p : Z) : bytes :=
  let p1 := p + 2 + len (bytes_at data (p + 2) 2) in
  let lbytes := bytes_at data p1 4 in
  let p2 := p1 + len lbytes in
  let n := int_from_bytes_big lbytes - 8 in
  if n <? 0 then skipn (Z.to_nat p2) data else bytes_at data p2 n.

(** The tag the scanner reads at [pos]: two bytes, fewer at the end. *)
Definition tag_at (data : bytes) (pos : Z) : bytes :=
  firstn 2 (skipn (Z.to_nat pos) data).

Section Scans.

Variable L : library.
Variable fuel : nat.
Variable data : bytes.
Variable instream : reader.
Variable sourcefile : string.
Variable outstream : fileobj.

(** [scan_reaches n s s']: [n] passes of the loop, none of which leaves
    it, lead from [s] to [s']. *)
Inductive scan_reaches : nat -> scan_state -> scan_state -> Prop :=
| reach_here : forall s, scan_reaches O s s
| reach_round : forall n s s1 s2,
    scan_iteration L fuel data instream sourcefile outstream s
      = (Ok Continue, s1) ->
    scan_reaches n s1 s2 ->
    scan_reaches (S n) s s2.

(** The read position lies inside the stream. *)
Definition in_stream (s : scan_state) : Prop := 0 <= position s <= len data.

(** [forward m]: from a position inside the stream, [m] moves the read
    position forward only and never past the end, and it is not cut off
    by a bound. *)
Definition forward {A : Type} (m : M A) : Prop :=
  forall s r s',
    in_stream s -> m s = (r, s') ->
    position s <= position s' <= len data /\ r <> OutOfFuel.

End Scans.

(** ** Events and triples *)

Definition is_write (e : event) : bool :=
  match e with
  | WroteText _ | WroteBytes _ => true
  | Printed _ | Logged _ => false
  end.

(** The number of entries among the events. *)
Definition written (evs : list event) : Z := len (filter is_write evs).

(** The messages the module passes to [output_info] as debug messages. *)
Definition is_debug (m : message) : bool :=
  match m with
  | FoundLz4Entry _ | EntryHoldsLogs _ | FoundTlcEntry _
  | DecodedTlcLogs _ | TlcHoldsLogs _ => true
  | _ => false
  end.

(** What a run may emit when neither stream is [sys.stdout]: printed
    messages that are no debug messages, and entries as bytes. *)
Definition batch_event (e : event) : bool :=
  match e with
  | Printed m => negb (is_debug m)
  | WroteBytes _ => true
  | Logged _ | WroteText _ => false
  end.

(** What a run may emit when [outstream] is [sys.stdout] and [instream] is
    not: entries as text, messages in the log file, and, printed, the two
    error messages of [parse_tlc]. *)
Definition single_file_event (e : event) : bool :=
  match e with
  | WroteText _ => true
  | Logged m => negb (is_debug m)
  | Printed (TlcUndecodable _ _) | Printed (SkippedEntry _ _) => true
  | Printed _ | WroteBytes _ => false
  end.

(** [triple Inv P m Q]: from a state in [P], [m] ends in [Q] when it
    returns and in [Inv] when it raises or runs out of fuel. *)
Definition triple {A : Type} (Inv P : scan_state -> Prop) (m : M A)
    (Q : scan_state -> Prop) : Prop :=
  forall s r s',
    P s -> m s = (r, s') ->
    match r with
    | Ok _ => Q s'
    | Raise _ | OutOfFuel => Inv s'
    end.

(** [logentries] is ahead of the entries written by [d]. *)
Definition counted (d : Z) (s : scan_state) : Prop :=
  logentries s = written (emitted s) + d.

Definition all_events (allowed : event -> bool) (s : scan_state) : Prop :=
  forallb allowed (emitted s) = true.

(** ** A library to run the decoder on concrete streams

    The statements below hold for every [library].  Concrete runs need one:
    [sample_library] decodes the LZ4 blocks that consist of a single run of
    literals (one token, its length bytes, the literals), and the LZ4 frames
    without optional header fields or checksums whose blocks are stored or
    are such literal runs.  It rejects everything else. *)

(** The continuation bytes of a length that started at 15. *)
Fixpoint lz4_length (acc : Z) (src : bytes) : option (Z * bytes) :=
  match src with
  | [] => None
  | b :: rest =>
      if byte_val b =? 255 then lz4_length (acc + 255) rest
      else Some (acc + byte_val b, rest)
  end.

Definition sample_block_decompress (source : bytes) (uncompressed_size : Z)
    : option bytes :=
  match source with
  | [] => None
  | token :: rest =>
      if negb (Z.land (byte_val token) 15 =? 0) then None
      else
        match (if Z.shiftr (byte_val token) 4 =? 15 then lz4_length 15 rest
               else Some (Z.shiftr (byte_val token) 4, rest)) with
        | None => None
        | Some (n, literals) =>
            if (len literals =? n) && (n <=? uncompressed_size)
            then Some literals else None
        end
  end.

Definition u32 (x : Z) : Z := x mod 2 ^ 32.

Definition rotl32 (x r : Z) : Z :=
  u32 (Z.lor (Z.shiftl x r) (Z.shiftr x (32 - r))).

(** XXH32 with seed 0 of an input shorter than 16 bytes, which is all a
    frame descriptor can be. *)
Fixpoint xxh32_lanes (h : Z) (input : bytes) : Z :=
  match input with
  | a :: b :: c :: d :: rest =>
      let lane := int_from_bytes_little [a; b; c; d] in
      xxh32_lanes (u32 (rotl32 (u32 (h + lane * 3266489917)) 17 * 668265263))
                  rest
  | _ =>
      fold_left
        (fun h x => u32 (rotl32 (u32 (h + byte_val x * 374761393)) 11
                         * 2654435761))
        input h
  end.

Definition xxh32_short (input : bytes) : Z :=
  let h := xxh32_lanes (u32 (374761393 + len input)) input in
  let h := u32 (Z.lxor h (Z.shiftr h 15) * 2246822519) in
  let h := u32 (Z.lxor h (Z.shiftr h 13) * 3266489917) in
  Z.lxor h (Z.shiftr h 16).

(** The data blocks of a frame up to its end mark; no block may hold more
    than [limit] bytes. *)
Fixpoint sample_frame_blocks (rounds : nat) (limit : Z) (src : bytes)
    : option bytes :=
  match rounds with
  | O => None
  | S rounds' =>
      let size := int_from_bytes_little (firstn 4 src) in
      let rest := skipn 4 src in
      if len src <? 4 then None
      else if size =? 0 then (if len rest =? 0 then Some [] else None)
      else
        let stored := 2 ^ 31 <=? size in
        let n := if stored then size - 2 ^ 31 else size in
        let block := firstn (Z.to_nat n) rest in
        if (len rest <? n) || (limit <? n) then None
        else
          match (if stored then Some block
                 else sample_block_decompress block limit),
                sample_frame_blocks rounds' limit (skipn (Z.to_nat n) rest)
          with
          | Some d, Some more => Some (d ++ more)
          | _, _ => None
          end
  end.

Definition sample_frame_decompress (data : bytes) (flag : Z) : option bytes :=
  match data with
  | m0 :: m1 :: m2 :: m3 :: flg :: bd :: hc :: blocks =>
      if bytes_eqb [m0; m1; m2; m3] [x04; x22; x4d; x18]
         && (Z.lor (byte_val flg) 32 =? 96)
         && (Z.land (byte_val bd) 143 =? 0)
         && (4 <=? Z.shiftr (byte_val bd) 4)
         && (byte_val hc =? Z.land (Z.shiftr (xxh32_short [flg; bd]) 8) 255)
      then sample_frame_blocks (List.length blocks)
                               (2 ^ (8 + 2 * Z.shiftr (byte_val bd) 4)) blocks
      else None
  | _ => None
  end.

(** Entries are ASCII text; bytes above 127 do not decode. *)
Definition sample_decode (entry : bytes) : option string :=
  if forallb (fun b => byte_val b <? 128) entry
  then Some (string_of_list_byte entry) else None.

Definition sample_library : library :=
  {| lz4_block_decompress := sample_block_decompress;
     lz4_frame_decompress := sample_frame_decompress;
     bytes_decode := sample_decode |}.

Definition sample_instream : fileobj :=
  {| name := "tlog.1706323123.log.gz"; is_sys_stdout := false |}.

Definition sample_outstream : fileobj :=
  {| name := "tlog.1706323123.log.gz.csv"; is_sys_stdout := false |}.

(** ** Sample streams *)

(** Two lz4 records.  The first, at offset 0, carries the one-byte block
    0x10 (a token that announces a literal which is not there) and a
    trailer of three bytes; the second, at offset 26, carries the block
    0x10 0x41. *)
Definition corrupt_then_valid : bytes :=
  [xec; xcf;
   x00; x00; x00; x00; x00; x00; x00; x01; x00; x01; x00; x01;
   x00; x00; x00; x00;
   x00; x01; x10;
   x03; x00; x61; x62; x63;
   xec; xcf;
   x00; x00; x00; x00; x00; x00; x00; x01; x00; x02; x00; x01;
   x00; x00; x00; x00;
   x00; x01; x10; x41;
   x00; x00].

(** Two padding bytes, then at offset 2 a tlc record whose body is a
    [zbuf] field with an empty array. *)
Definition padded_tlc_record : bytes :=
  [x00; x00;
   xaa; x01; x00; x00; x00; x00; x00; x0b;
   x00; x10; x00].

(** A tlc record whose body is the category-1 field with length -4. *)
Definition looping_tlc_record : bytes :=
  [xaa; x01; x00; x00; x00; x00; x00; x0c; x10; x00; xff; xfc].

(** An lz4 record with the padding flag set, device id, device name and
    vdom, two entries of four and six bytes, and a trailer of two bytes. *)
Definition two_entry_block : bytes :=
  [xec; xcf;
   x04; x00; x00; x0b; x05; x04; x00; x02; x00; x0b; x00; x0a;
   x65; xcc; xc4; x4c]
  ++ list_byte_of_string "FG200FT1234fa123root"
  ++ [x00; x04; x00; x06; x00; x00; x00; x00; xa0]
  ++ list_byte_of_string "abcd123456"
  ++ [x02; x00; xff; xff].

(** The payload of [two_entry_envelope]: two logs, each closed by 0x00. *)
Definition two_logs : bytes :=
  list_byte_of_string "logver=0702071577 date=2024-02-14 msg=up" ++ [x00]
  ++ list_byte_of_string "logver=0702071577 date=2024-02-14 msg=down"
  ++ [x00].

(** A tlc record with the fields devid, num-logs = 2, unzip-len = 84 and
    zbuf, the latter an LZ4 frame that stores [two_logs] in one block. *)
Definition two_entry_envelope : bytes :=
  [xaa; x01; x00; x00; x00; x00; x00; x86;
   x00; x01; x0b]
  ++ list_byte_of_string "FG200FT1234"
  ++ [x30; x0b; x02;
      x50; x0c; x00; x00; x00; x54;
      x10; x10; x00; x63;
      x04; x22; x4d; x18; x60; x40; x82;
      x54; x00; x00; x80]
  ++ two_logs
  ++ [x00; x00; x00; x00].

(** A tlc record whose only field has id 18, in front of
    [two_entry_block]. *)
Definition bad_field_then_block : bytes :=
  [xaa; x01; x00; x00; x00; x00; x00; x0b; x30; x12; x00] ++ two_entry_block.

(** An lz4 record of two entries of one byte each, the second of which is
    no text: the block is the token 0x20 and the literals 41 FF. *)
Definition undecodable_second_entry : bytes :=
  [xec; xcf;
   x00; x00; x00; x00; x00; x00; x00; x02; x00; x03; x00; x02;
   x00; x00; x00; x00;
   x00; x01; x00; x01; x20; x41; xff;
   x00; x00].

Definition sample_stdout : fileobj :=
  {| name := "<stdout>"; is_sys_stdout := true |}.

(** What [process_file] opens for a [.zst] file: a reader without a
    [name]. *)
Definition sample_zst_reader : reader := opened "tlog.1706323123.log.zst".

(** An lz4 record whose block does not decompress and whose trailer is
    empty, in front of [two_entry_block]. *)
Definition corrupt_with_empty_trailer : bytes :=
  [xec; xcf;
   x00; x00; x00; x00; x00; x00; x00; x01; x00; x01; x00; x01;
   x00; x00; x00; x00;
   x00; x01; x10;
   x00; x00]
  ++ two_entry_block.

(** The body of a tlc record: unzip-len = 84, then zbuf with the LZ4 frame
    that stores [two_logs]. *)
Definition size_then_frame : bytes :=
  [x50; x0c; x00; x00; x00; x54;
   x10; x10; x00; x63;
   x04; x22; x4d; x18; x60; x40; x82;
   x54; x00; x00; x80]
  ++ two_logs
  ++ [x00; x00; x00; x00].

(** A tlc record with length field 7 in front of a devid field. *)
Definition length_seven_record : bytes :=
  [xaa; x01; x00; x00; x00; x00; x00; x07; x00; x01; x02; x41; x42].

(** A source directory with a log file and a file that is none, and an
    empty target directory. *)
Definition sample_listing : list (string * bytes) :=
  [("tlog.1706323123.log.gz"%string, two_entry_block);
   ("notes.txt"%string, list_byte_of_string "to do")].

Definition empty_target_dir : dir_state :=
  {| target_files := fun _ => None; console := [] |}.

(** The target directory and the console after one run over
    [sample_listing]. *)
Definition after_first_run : dir_state :=
  snd (process_dir sample_library 5 3 "/var/log/forti" "/tmp/out"
                   sample_listing empty_target_dir).

(** * Properties *)

(** ** Runtime operations *)

Lemma byte_val_range (b : byte) : 0 <= byte_val b <= 255.
Proof.
  unfold byte_val. pose proof (Byte.to_N_bounded b). lia.
Qed.

Lemma res_bind_Ok {A B : Type} (m : res A) (k : A -> res B) (b : B) :
  res_bind m k = Ok b -> exists a, m = Ok a /\ k a = Ok b.
Proof.
  destruct m as [a| |]; simpl; intros H; try discriminate. eauto.
Qed.

Lemma py_nth_Ok_lt {A : Type} (l : list A) (i : Z) (x : A) :
  py_nth l i = Ok x -> i < len l.
Proof.
  unfold py_nth, len. destruct (i <? 0) eqn:Hneg.
  - intros _. apply Z.ltb_lt in Hneg. lia.
  - apply Z.ltb_ge in Hneg. rewrite (proj2 (Z.ltb_ge i 0) Hneg).
    destruct (nth_error l (Z.to_nat i)) eqn:Hn; intros H; try discriminate.
    assert (Hlt : (Z.to_nat i < List.length l)%nat).
    { apply nth_error_Some. congruence. }
    lia.
Qed.

Lemma py_index_Ok_lt (b : bytes) (i v : Z) :
  py_index b i = Ok v -> i < len b.
Proof.
  unfold py_index. destruct (py_nth b i) eqn:H; intros E; try discriminate.
  eapply py_nth_Ok_lt; eauto.
Qed.

Lemma py_index_range (b : bytes) (i v : Z) :
  py_index b i = Ok v -> 0 <= v <= 255.
Proof.
  unfold py_index. destruct (py_nth b i); intros E; inversion E.
  apply byte_val_range.
Qed.

(** An id at or past the end of the 18-entry table makes the lookup raise. *)
Lemma tlc_fields_out_of_range (fieldid : Z) :
  18 <= fieldid -> py_nth tlc_fields fieldid = Raise IndexError.
Proof.
  intros H. unfold py_nth.
  destruct (fieldid <? 0) eqn:Hneg; [apply Z.ltb_lt in Hneg; lia|].
  rewrite Hneg.
  assert (Hn : nth_error tlc_fields (Z.to_nat fieldid) = None).
  { apply nth_error_None. simpl. lia. }
  now rewrite Hn.
Qed.

(** ** The walk of [parse_tlc] *)

Section WalkFacts.

Variable L : library.
Variable body : bytes.
Variables instream outstream : fileobj.

Local Abbreviation walk := (tlc_walk L body instream outstream).

Lemma decode_field_pointer_lt st fieldid st1 :
  decode_field body st = Ok (fieldid, st1) -> pointer st < len body.
Proof.
  unfold decode_field. intros H.
  apply res_bind_Ok in H. destruct H as (b0 & Hb0 & _).
  eapply py_index_Ok_lt; eauto.
Qed.

Lemma decode_value_lunzipped typehigh p st st1 :
  decode_value body typehigh p st = Ok st1 -> lunzipped st1 = lunzipped st.
Proof.
  unfold decode_value. intros H.
  repeat match type of H with
  | (if ?c then _ else _) = _ => destruct c
  | res_bind ?m _ = Ok _ =>
      apply res_bind_Ok in H; destruct H as (? & _ & H)
  | (match ?x with pair _ _ => _ end) = _ => destruct x
  end; inversion H; reflexivity.
Qed.

Lemma decode_field_lunzipped st fieldid st1 :
  decode_field body st = Ok (fieldid, st1) -> lunzipped st1 = lunzipped st.
Proof.
  unfold decode_field. intros H.
  apply res_bind_Ok in H. destruct H as (b0 & _ & H).
  apply res_bind_Ok in H. destruct H as (fid & _ & H).
  apply res_bind_Ok in H. destruct H as (st' & Hv & H).
  inversion H; subst. eapply decode_value_lunzipped; eauto.
Qed.

(** A field that lets the walk go on emits nothing: its only message is a
    debug message, and [debug] is off. *)
Lemma act_on_field_next fieldid st st' e :
  act_on_field L instream outstream fieldid st = Ok (TlcNext st', e) ->
  e = [] /\
  ((py_nth tlc_fields fieldid = Ok "unzip-len"%string /\
    exists v, value st = Some v /\ lunzipped st' = v) \/
   (py_nth tlc_fields fieldid <> Ok "unzip-len"%string /\ st' = st)).
Proof.
  unfold act_on_field. intros H.
  apply res_bind_Ok in H. destruct H as (fname & Hname & H).
  destruct (String.eqb_spec fname "unzip-len") as [Hu|Hu].
  - apply res_bind_Ok in H. destruct H as (v & Hv & H).
    inversion H; subst. split; [reflexivity|]. left. split; [assumption|].
    exists v. split; [|reflexivity].
    destruct (value st); simpl in Hv; congruence.
  - assert (Hne : py_nth tlc_fields fieldid <> Ok "unzip-len"%string)
      by (rewrite Hname; congruence).
    destruct (fname =? "num-logs")%string.
    + apply res_bind_Ok in H. destruct H as (v & _ & H).
      inversion H; subst. split; [reflexivity|]. right. now split.
    + destruct (fname =? "zbuf")%string.
      * destruct (lunzipped st =? 0); [discriminate|].
        apply res_bind_Ok in H. destruct H as (a & _ & H).
        destruct (len a =? 0); [discriminate|].
        destruct (lz4_frame_decompress L a (lunzipped st)); discriminate.
      * inversion H; subst. split; [reflexivity|]. right. now split.
Qed.

Lemma tlc_step_decoded st fieldid st1 :
  decode_field body st = Ok (fieldid, st1) ->
  tlc_step L body instream outstream st =
  act_on_field L instream outstream fieldid st1.
Proof.
  unfold tlc_step. intros ->. reflexivity.
Qed.

(** A walk of [n] fields is the first [n] iterations of every longer run. *)
Lemma tlc_loop_walk P n st st' :
  walk P n st st' ->
  forall fuel evs,
    tlc_loop L (n + fuel) body instream outstream st evs =
    tlc_loop L fuel body instream outstream st' evs.
Proof.
  induction 1 as [st|n st fieldid st1 st2 st3 e Hd HP Ha Hw IH];
    intros fuel evs.
  - reflexivity.
  - simpl. pose proof (decode_field_pointer_lt _ Hd) as Hlt.
    apply Z.ltb_lt in Hlt. rewrite Hlt.
    rewrite (tlc_step_decoded _ Hd), Ha.
    destruct (act_on_field_next _ _ Ha) as [-> _].
    rewrite app_nil_r. apply IH.
Qed.

(** Fields other than [unzip-len] leave [lunzipped] as it was. *)
Lemma tlc_walk_keeps_lunzipped n st st' :
  walk not_unzip_len n st st' -> lunzipped st' = lunzipped st.
Proof.
  induction 1 as [st|n st fieldid st1 st2 st3 e Hd HP Ha Hw IH].
  - reflexivity.
  - rewrite IH. destruct (act_on_field_next _ _ Ha) as [_ [[Hu _]|[_ ->]]].
    + contradiction.
    + eapply decode_field_lunzipped; eauto.
Qed.

Lemma act_on_zbuf_unusable fieldid st :
  py_nth tlc_fields fieldid = Ok "zbuf"%string ->
  lunzipped st = 0 \/ array st = Some [] ->
  act_on_field L instream outstream fieldid st =
  Ok (TlcReturn [], [undecodable_event instream outstream]).
Proof.
  intros Hname Hbad. unfold act_on_field. rewrite Hname. simpl.
  unfold undecodable_event, output_info. simpl.
  destruct (lunzipped st =? 0) eqn:Hz.
  - destruct (is_sys_stdout outstream); reflexivity.
  - destruct Hbad as [H0|Ha].
    + rewrite H0 in Hz. discriminate.
    + rewrite Ha. simpl. destruct (is_sys_stdout outstream); reflexivity.
Qed.

Lemma tlc_walk_weaken (P : Z -> Prop) n st st' :
  walk P n st st' -> walk any_field n st st'.
Proof.
  induction 1; [constructor|].
  econstructor; eauto. exact I.
Qed.

Lemma tlc_walk_app P n m st1 st2 st3 :
  walk P n st1 st2 -> walk P m st2 st3 -> walk P (n + m) st1 st3.
Proof.
  induction 1 as [st|n st fieldid sta stb stc e Hd HP Ha Hw IH];
    intros Hm; simpl; [assumption|].
  eapply walk_field; [exact Hd|exact HP|exact Ha|apply IH; exact Hm].
Qed.

(** The run that ends at the field behind a walk of [n] fields. *)
Lemma parse_tlc_returns_after_walk P n st fieldid st1 buffer e :
  walk P n tlc_initial st ->
  decode_field body st = Ok (fieldid, st1) ->
  act_on_field L instream outstream fieldid st1 = Ok (TlcReturn buffer, e) ->
  forall fuel, (n < fuel)%nat ->
    parse_tlc L fuel body instream outstream = (Ok buffer, e).
Proof.
  intros Hw Hd Ha fuel Hfuel. unfold parse_tlc.
  replace fuel with (n + S (fuel - S n))%nat by lia.
  rewrite (tlc_loop_walk Hw). simpl.
  pose proof (decode_field_pointer_lt _ Hd) as Hlt.
  apply Z.ltb_lt in Hlt. rewrite Hlt.
  rewrite (tlc_step_decoded _ Hd), Ha. reflexivity.
Qed.

Lemma parse_tlc_raises_after_walk P n st fieldid st1 x :
  walk P n tlc_initial st ->
  decode_field body st = Ok (fieldid, st1) ->
  act_on_field L instream outstream fieldid st1 = Raise x ->
  forall fuel, (n < fuel)%nat ->
    parse_tlc L fuel body instream outstream = (Raise x, []).
Proof.
  intros Hw Hd Ha fuel Hfuel. unfold parse_tlc.
  replace fuel with (n + S (fuel - S n))%nat by lia.
  rewrite (tlc_loop_walk Hw). simpl.
  pose proof (decode_field_pointer_lt _ Hd) as Hlt.
  apply Z.ltb_lt in Hlt. rewrite Hlt.
  rewrite (tlc_step_decoded _ Hd), Ha. reflexivity.
Qed.

End WalkFacts.

(** ** [zbuf] fields that cannot be decoded *)

(** C4.  When the walk reaches a [zbuf] field and either no [unzip-len]
    field came before it or the array in hand is empty, [parse_tlc] returns
    the empty buffer at that very field (the iteration after the [n] fields
    walked), and the events of the whole call are exactly one error message.
    What follows the field in [body] is never looked at: the result is the
    same for every bound above [n]. *)
Theorem zbuf_without_size_or_data_fails :
  forall (L : library) (body : bytes) (instream outstream : fileobj)
         (n : nat) (st st1 : tlc_locals) (fieldid : Z),
    decode_field body st = Ok (fieldid, st1) ->
    py_nth tlc_fields fieldid = Ok "zbuf"%string ->
    tlc_walk L body instream outstream not_unzip_len n tlc_initial st \/
    (tlc_walk L body instream outstream any_field n tlc_initial st /\
     array st1 = Some []) ->
    forall fuel, (n < fuel)%nat ->
      parse_tlc L fuel body instream outstream =
      (Ok [], [undecodable_event instream outstream]).
Proof.
  intros L body instream outstream n st st1 fieldid Hd Hname Hcase fuel Hf.
  destruct Hcase as [Hw|[Hw Harr]].
  - eapply parse_tlc_returns_after_walk; eauto.
    apply act_on_zbuf_unusable; [assumption|]. left.
    rewrite (decode_field_lunzipped _ _ Hd).
    rewrite (tlc_walk_keeps_lunzipped Hw). reflexivity.
  - eapply parse_tlc_returns_after_walk; eauto.
    apply act_on_zbuf_unusable; [assumption|]. now right.
Qed.

(** A body whose first field is [zbuf] with an empty array, followed by a
    field with an id outside the table that is never reached. *)
Lemma zbuf_without_size_or_data_fails_witness :
  decode_field [x00; x10; x00; x30; xff; x00] tlc_initial =
    Ok (16, {| pointer := 3; lunzipped := 0; value := None;
               array := Some [] |}) /\
  parse_tlc sample_library 1 [x00; x10; x00; x30; xff; x00]
            sample_outstream sample_instream =
  (Ok [], [Printed (TlcUndecodable 0 "tlog.1706323123.log.gz.csv")]).
Proof.
  split; [reflexivity|].
  apply (@zbuf_without_size_or_data_fails sample_library
           [x00; x10; x00; x30; xff; x00] sample_outstream sample_instream
           O tlc_initial _ 16 eq_refl eq_refl
           (or_introl (walk_here _ _ _ _ _ _)) 1%nat).
  apply Nat.lt_0_1.
Defined.

(** C10.  An [unzip-len] field whose decoded value is 0 leaves [lunzipped]
    at the value it has before any [unzip-len] field, so that a [zbuf] field
    met afterwards (through fields that are not [unzip-len]) ends the parse
    as an unrecorded size does: one error message, the empty buffer. *)
Theorem zero_unzip_len_is_unrecorded :
  forall (L : library) (body : bytes) (instream outstream : fileobj)
         (n m : nat) (st0 st1 st st' : tlc_locals) (fid0 fid : Z),
    tlc_walk L body instream outstream any_field n tlc_initial st0 ->
    decode_field body st0 = Ok (fid0, st1) ->
    py_nth tlc_fields fid0 = Ok "unzip-len"%string ->
    value st1 = Some 0 ->
    tlc_walk L body instream outstream not_unzip_len m
             {| pointer := pointer st1; lunzipped := 0;
                value := value st1; array := array st1 |} st ->
    decode_field body st = Ok (fid, st') ->
    py_nth tlc_fields fid = Ok "zbuf"%string ->
    lunzipped st' = lunzipped tlc_initial /\
    forall fuel, (n + 1 + m < fuel)%nat ->
      parse_tlc L fuel body instream outstream =
      (Ok [], [undecodable_event instream outstream]).
Proof.
  intros L body instream outstream n m st0 st1 st st' fid0 fid
         Hw0 Hd0 Hn0 Hv Hw Hd Hn.
  assert (Hl : lunzipped st' = 0).
  { rewrite (decode_field_lunzipped _ _ Hd).
    rewrite (tlc_walk_keeps_lunzipped Hw). reflexivity. }
  split; [exact Hl|]. intros fuel Hf.
  assert (Hstore : act_on_field L instream outstream fid0 st1 =
                   Ok (TlcNext {| pointer := pointer st1; lunzipped := 0;
                                  value := value st1; array := array st1 |},
                       [])).
  { unfold act_on_field. rewrite Hn0. simpl. rewrite Hv. reflexivity. }
  assert (Hall : tlc_walk L body instream outstream any_field (n + 1 + m)
                          tlc_initial st).
  { rewrite <- Nat.add_assoc. eapply tlc_walk_app; [exact Hw0|].
    simpl. econstructor; [exact Hd0|exact I|exact Hstore|].
    eapply tlc_walk_weaken; eauto. }
  eapply parse_tlc_returns_after_walk; eauto.
  apply act_on_zbuf_unusable; [assumption|]. now left.
Qed.

(** [unzip-len] sent as a four-byte integer 0, then a [zbuf] field holding
    three bytes. *)
Lemma zero_unzip_len_is_unrecorded_witness :
  decode_field [x50; x0c; x00; x00; x00; x00; x00; x10; x03; x41; x42; x43]
               tlc_initial =
    Ok (12, {| pointer := 6; lunzipped := 0; value := Some 0;
               array := None |}) /\
  parse_tlc sample_library 2
            [x50; x0c; x00; x00; x00; x00; x00; x10; x03; x41; x42; x43]
            sample_outstream sample_instream =
  (Ok [], [Printed (TlcUndecodable 0 "tlog.1706323123.log.gz.csv")]).
Proof.
  split; [reflexivity|].
  refine (proj2 (@zero_unzip_len_is_unrecorded sample_library
           [x50; x0c; x00; x00; x00; x00; x00; x10; x03; x41; x42; x43]
           sample_outstream sample_instream O O tlc_initial _ _ _ 12 16
           (walk_here _ _ _ _ _ _) eq_refl eq_refl eq_refl
           (walk_here _ _ _ _ _ _) eq_refl eq_refl) 2%nat _).
  apply Nat.lt_1_2.
Defined.

(** ** Field ids outside the table *)

(** C2, as the code has it.  When the walk reaches a field whose id is 18
    or more, the lookup [tlc_fields[fieldid]] is made with that id and
    raises [IndexError]; the exception leaves [parse_tlc], which returns no
    buffer and has emitted nothing. *)
Theorem field_id_outside_table_raises :
  forall (L : library) (body : bytes) (instream outstream : fileobj)
         (n : nat) (st st1 : tlc_locals) (fieldid : Z),
    tlc_walk L body instream outstream any_field n tlc_initial st ->
    decode_field body st = Ok (fieldid, st1) ->
    18 <= fieldid ->
    forall fuel, (n < fuel)%nat ->
      parse_tlc L fuel body instream outstream = (Raise IndexError, []).
Proof.
  intros L body instream outstream n st st1 fieldid Hw Hd Hid fuel Hf.
  eapply parse_tlc_raises_after_walk; eauto.
  unfold act_on_field. rewrite (tlc_fields_out_of_range Hid). reflexivity.
Qed.

Lemma field_id_outside_table_raises_witness :
  decode_field [x30; x12; x00] tlc_initial =
    Ok (18, {| pointer := 3; lunzipped := 0; value := Some 0;
               array := None |}) /\
  parse_tlc sample_library 1 [x30; x12; x00]
            sample_outstream sample_instream = (Raise IndexError, []).
Proof.
  split; [reflexivity|].
  apply (@field_id_outside_table_raises sample_library [x30; x12; x00]
           sample_outstream sample_instream O tlc_initial _ 18
           (walk_here _ _ _ _ _ _) eq_refl).
  - discriminate.
  - apply Nat.lt_0_1.
Defined.

(** C2, as claimed, fails: a one-byte integer field with id 18 does not
    make [parse_tlc] return the empty buffer; the table is indexed with 18
    and the call ends in [IndexError], whatever the bound. *)
Lemma field_id_outside_table_counterexample :
  py_nth tlc_fields 18 = Raise IndexError /\
  parse_tlc sample_library 1 [x30; x12; x00]
            sample_outstream sample_instream = (Raise IndexError, []) /\
  parse_tlc sample_library 1000 [x30; x12; x00]
            sample_outstream sample_instream = (Raise IndexError, []).
Proof.
  repeat split; reflexivity.
Qed.

(** ** Array lengths below zero *)

(** C9 fails on a category-1 field whose length prefix reads -4: the step
    puts the cursor back where it was, and no bound on the number of
    iterations is enough for the loop to end. *)
Theorem negative_array_length_loops :
  forall (L : library) (instream outstream : fileobj) (fuel : nat),
    unpack_h [x10; x00; xff; xfc] 2 = Ok (-4) /\
    tlc_step L [x10; x00; xff; xfc] instream outstream tlc_initial =
      Ok (TlcNext {| pointer := 0; lunzipped := 0; value := None;
                     array := Some [] |}, []) /\
    parse_tlc L fuel [x10; x00; xff; xfc] instream outstream =
      (OutOfFuel, []).
Proof.
  intros L instream outstream fuel.
  split; [reflexivity|]. split; [reflexivity|].
  unfold parse_tlc.
  assert (Hloop : forall k st,
             pointer st = 0 ->
             tlc_loop L k [x10; x00; xff; xfc] instream outstream st [] =
             (OutOfFuel, [])).
  { induction k as [|k IH]; intros st Hp; [reflexivity|].
    destruct st as [p lu v a]. simpl in Hp. subst p.
    simpl. apply IH. reflexivity. }
  apply Hloop. reflexivity.
Qed.

(** ** Integer categories *)

(** C7 fails on the integer categories.  Category 6 advances the cursor by
    eight bytes and decodes only the first four: the eight bytes that spell
    1 are read as 0.  Category 3 reads its byte unsigned, and category 7
    loses its high half whenever the low half has its top bit set. *)
Theorem eight_byte_integer_reads_four :
  decode_field [x60; x0c; x00; x00; x00; x00; x00; x00; x00; x01]
               tlc_initial =
    Ok (12, {| pointer := 10; lunzipped := 0; value := Some 0;
               array := None |}) /\
  signed 64 (int_from_bytes_big
               [x00; x00; x00; x00; x00; x00; x00; x01]) = 1 /\
  decode_field [x30; x0c; xff] tlc_initial =
    Ok (12, {| pointer := 3; lunzipped := 0; value := Some 255;
               array := None |}) /\
  signed 8 (int_from_bytes_big [xff]) = -1 /\
  decode_field [x70; x0c; x00; x00; x00; x00; x00; x00; x00; x01;
                xff; xff; xff; xff; xff; xff; xff; xff] tlc_initial =
    Ok (12, {| pointer := 18; lunzipped := 0; value := Some (-1);
               array := None |}) /\
  signed 128 (int_from_bytes_big
                [x00; x00; x00; x00; x00; x00; x00; x01;
                 xff; xff; xff; xff; xff; xff; xff; xff]) = 2 ^ 65 - 1.
Proof.
  repeat split; vm_compute; reflexivity.
Qed.

(** ** Splitting on a separator *)

Lemma byte_eqb_refl (x : byte) : Byte.eqb x x = true.
Proof. now apply Byte.byte_dec_lb. Qed.

Lemma starts_with_app (sep b : bytes) : starts_with sep (sep ++ b) = true.
Proof.
  induction sep as [|x sep IH]; simpl; [reflexivity|].
  now rewrite byte_eqb_refl, IH.
Qed.

Lemma starts_with_true (sep s : bytes) :
  starts_with sep s = true -> exists b, s = sep ++ b.
Proof.
  revert s. induction sep as [|x sep IH]; intros s H.
  - exists s. reflexivity.
  - destruct s as [|y s]; simpl in H; [discriminate|].
    apply andb_true_iff in H. destruct H as [Hxy Hs].
    apply Byte.byte_dec_bl in Hxy. subst y.
    destruct (IH _ Hs) as [b ->]. exists b. reflexivity.
Qed.

Lemma bytes_eqb_eq (a b : bytes) : bytes_eqb a b = true <-> a = b.
Proof.
  unfold bytes_eqb. split.
  - intros H. apply andb_true_iff in H. destruct H as [H1 H2].
    apply starts_with_true in H1. apply starts_with_true in H2.
    destruct H1 as [c Hc]. destruct H2 as [d Hd].
    assert (Hlen : List.length c = O).
    { apply (f_equal (@List.length byte)) in Hc.
      apply (f_equal (@List.length byte)) in Hd.
      rewrite !length_app in *. lia. }
    destruct c; [|discriminate]. now rewrite app_nil_r in Hc.
  - intros ->. rewrite <- (app_nil_r b) at 2 4.
    now rewrite !starts_with_app.
Qed.

Lemma bytes_eqb_neq (a b : bytes) : a <> b -> bytes_eqb a b = false.
Proof.
  intros H. destruct (bytes_eqb a b) eqn:E; [|reflexivity].
  apply bytes_eqb_eq in E. contradiction.
Qed.

Lemma occurrences_app_ge (sep a t : bytes) :
  (occurrences sep t <= occurrences sep (a ++ t))%nat.
Proof.
  induction a as [|x a IH]; simpl; lia.
Qed.

Lemma bytes_find_none (sep s : bytes) :
  sep <> [] -> occurrences sep s = O -> bytes_find sep s = None.
Proof.
  intros Hsep. induction s as [|x s IH]; intros Hocc.
  - destruct sep; [contradiction|reflexivity].
  - simpl in *. destruct (starts_with sep (x :: s)); [discriminate|].
    rewrite IH by assumption. reflexivity.
Qed.

(** When no occurrence starts inside [a], the search stops behind [a]. *)
Lemma bytes_find_behind (sep a b : bytes) :
  sep <> [] ->
  occurrences sep (a ++ sep ++ b) = occurrences sep (sep ++ b) ->
  bytes_find sep (a ++ sep ++ b) = Some (List.length a).
Proof.
  intros Hsep. induction a as [|x a IH]; intros Hocc.
  - simpl. pose proof (starts_with_app sep b) as Hs.
    destruct (sep ++ b) eqn:E.
    + destruct sep; [contradiction|discriminate].
    + simpl. simpl in Hs. now rewrite Hs.
  - pose proof (occurrences_app_ge sep a (sep ++ b)) as Hge.
    simpl in *.
    destruct (starts_with sep (x :: a ++ sep ++ b)); [lia|].
    rewrite IH by lia. reflexivity.
Qed.

(** A string in which [sep] occurs splits at its first occurrence. *)
Lemma first_occurrence (sep s : bytes) :
  (0 < occurrences sep s)%nat ->
  exists a b, s = a ++ sep ++ b /\
              occurrences sep (a ++ sep ++ b) = occurrences sep (sep ++ b).
Proof.
  induction s as [|x s IH]; simpl; intros H; [lia|].
  destruct (starts_with sep (x :: s)) eqn:Hs.
  - apply starts_with_true in Hs. destruct Hs as [b Hb].
    exists [], b. split; [exact Hb|reflexivity].
  - destruct (IH H) as (a & b & Heq & Hocc).
    exists (x :: a), b. split; [simpl; congruence|].
    simpl. rewrite <- Heq, Hs. rewrite Heq. exact Hocc.
Qed.

Lemma split_upto_cons (cuts : nat) (sep s : bytes) :
  exists x l, split_upto cuts sep s = x :: l.
Proof.
  destruct cuts; simpl; [eauto|].
  destruct (bytes_find sep s); eauto.
Qed.

Lemma split_upto_cut (cuts : nat) (sep a b : bytes) :
  sep <> [] ->
  occurrences sep (a ++ sep ++ b) = occurrences sep (sep ++ b) ->
  split_upto (S cuts) sep (a ++ sep ++ b) = a :: split_upto cuts sep b.
Proof.
  intros Hsep Hocc. simpl. rewrite (bytes_find_behind _ _ Hsep Hocc).
  rewrite firstn_app, Nat.sub_diag, firstn_all. simpl. rewrite app_nil_r.
  f_equal. f_equal.
  rewrite app_assoc, skipn_app.
  rewrite length_app, Nat.sub_diag. simpl.
  rewrite skipn_all2 by (rewrite length_app; lia). reflexivity.
Qed.

(** ** The marker [date=] *)

Lemma date_marker_nonempty : date_marker <> [].
Proof. discriminate. Qed.

(** The marker does not overlap itself: an occurrence counts once, and the
    next one starts behind it. *)
Lemma occurrences_behind_marker (b : bytes) :
  occurrences date_marker (date_marker ++ b) = S (occurrences date_marker b).
Proof.
  destruct b; reflexivity.
Qed.

Lemma tlc_entry_single (a b : bytes) :
  occurrences date_marker (a ++ date_marker ++ b) = 1%nat ->
  tlc_entry (a ++ date_marker ++ b) = Some (date_marker ++ b).
Proof.
  intros Hone.
  pose proof (occurrences_app_ge date_marker a (date_marker ++ b)) as Hge.
  rewrite occurrences_behind_marker in Hge.
  assert (Hb : occurrences date_marker b = O) by lia.
  assert (Hfirst : occurrences date_marker (a ++ date_marker ++ b) =
                   occurrences date_marker (date_marker ++ b)).
  { rewrite occurrences_behind_marker. lia. }
  unfold tlc_entry, py_split.
  assert (Hlen : exists k, List.length (a ++ date_marker ++ b) = S k).
  { rewrite !length_app. simpl. exists (List.length a + (4 + List.length b))%nat.
    lia. }
  destruct Hlen as [k ->].
  rewrite (split_upto_cut _ _ _ date_marker_nonempty Hfirst).
  assert (Hrest : split_upto k date_marker b = [b]).
  { destruct k; simpl; [reflexivity|].
    now rewrite (bytes_find_none b date_marker_nonempty Hb). }
  rewrite Hrest. reflexivity.
Qed.

Lemma tlc_entry_other (raw_entry : bytes) :
  occurrences date_marker raw_entry <> 1%nat -> tlc_entry raw_entry = None.
Proof.
  intros Hocc. unfold tlc_entry, py_split.
  destruct (occurrences date_marker raw_entry) as [|[|n]] eqn:E;
    [|contradiction|].
  - destruct (List.length raw_entry); simpl; [reflexivity|].
    now rewrite (bytes_find_none raw_entry date_marker_nonempty E).
  - destruct (@first_occurrence date_marker raw_entry) as (a & b & -> & Hfirst);
      [lia|].
    rewrite Hfirst, occurrences_behind_marker in E.
    destruct (@first_occurrence date_marker b) as (a' & b' & -> & Hfirst');
      [lia|].
    assert (Hlen : exists k,
               List.length (a ++ date_marker ++ a' ++ date_marker ++ b') =
               S (S k)).
    { rewrite !length_app. simpl.
      exists (List.length a + (3 + (List.length a' +
                (5 + List.length b'))))%nat. lia. }
    destruct Hlen as [k ->].
    rewrite (split_upto_cut _ _ _ date_marker_nonempty Hfirst).
    rewrite (split_upto_cut _ _ _ date_marker_nonempty Hfirst').
    destruct (split_upto_cons k date_marker b') as (x & l & ->).
    reflexivity.
Qed.

Lemma collect_entries_flat_map (raw_entries : list bytes) :
  collect_entries raw_entries = flat_map kept raw_entries.
Proof.
  induction raw_entries as [|raw more IH]; simpl; [reflexivity|].
  unfold kept at 1. destruct (tlc_entry raw); simpl; now rewrite IH.
Qed.

(** C6, as the code has it.  The entries of a payload are what its pieces
    between 0x00 bytes contribute, in order.  A piece in which the marker
    occurs exactly once contributes one entry, the marker and everything
    behind its occurrence; a piece in which it occurs any other number of
    times (never, or twice and more) contributes nothing.  The function is
    pure: no message goes with a dropped piece. *)
Theorem single_marker_pieces_are_kept :
  forall tlc : bytes,
    tlc_entries tlc = flat_map kept (py_split [x00] tlc) /\
    forall raw_entry : bytes,
      (forall a b : bytes,
          raw_entry = a ++ date_marker ++ b ->
          occurrences date_marker raw_entry = 1%nat ->
          kept raw_entry = [date_marker ++ b]) /\
      (occurrences date_marker raw_entry <> 1%nat -> kept raw_entry = []).
Proof.
  intros tlc. split.
  - unfold tlc_entries. apply collect_entries_flat_map.
  - intros raw_entry. split.
    + intros a b -> Hone. unfold kept.
      now rewrite (tlc_entry_single _ _ Hone).
    + intros Hocc. unfold kept. now rewrite (tlc_entry_other _ Hocc).
Qed.

(** Two pieces: a header in front of one marker, and plain text. *)
Lemma single_marker_pieces_are_kept_witness :
  occurrences date_marker
    (list_byte_of_string "logver=0702071577 date=2024-02-14 type=event")
    = 1%nat /\
  occurrences date_marker (list_byte_of_string "devid=FG200FT1234") <> 1%nat /\
  kept (list_byte_of_string "logver=0702071577 date=2024-02-14 type=event")
    = [list_byte_of_string "date=2024-02-14 type=event"] /\
  kept (list_byte_of_string "devid=FG200FT1234") = [].
Proof.
  split; [reflexivity|]. split; [discriminate|]. split.
  - exact (proj1 (proj2 (single_marker_pieces_are_kept [])
                   (list_byte_of_string
                      "logver=0702071577 date=2024-02-14 type=event"))
             (list_byte_of_string "logver=0702071577 ")
             (list_byte_of_string "2024-02-14 type=event")
             eq_refl eq_refl).
  - apply (proj2 (proj2 (single_marker_pieces_are_kept [])
                    (list_byte_of_string "devid=FG200FT1234"))).
    discriminate.
Defined.

(** C6, as claimed, fails: the marker occurs in this piece (twice), and the
    piece yields no entry. *)
Lemma repeated_marker_counterexample :
  occurrences date_marker
    (list_byte_of_string "date=2024-02-14 msg=date=unset") = 2%nat /\
  tlc_entry (list_byte_of_string "date=2024-02-14 msg=date=unset") = None /\
  tlc_entries (list_byte_of_string "date=2024-02-14 msg=date=unset") = [].
Proof.
  repeat split; reflexivity.
Qed.

(** ** The entries of an lz4 record *)

Lemma int_from_bytes_big_nonneg (b : bytes) : 0 <= int_from_bytes_big b.
Proof.
  unfold int_from_bytes_big.
  assert (H : forall acc, 0 <= acc ->
            0 <= fold_left (fun acc x => acc * 256 + byte_val x) b acc).
  { induction b as [|x b IH]; intros acc Hacc; simpl; [assumption|].
    apply IH. pose proof (byte_val_range x). lia. }
  apply H. lia.
Qed.

Lemma range2_double (n : Z) :
  0 <= n ->
  range2 (n * 2) = map (fun k => 2 * Z.of_nat k) (seq 0 (Z.to_nat n)).
Proof.
  intros Hn. unfold range2.
  replace ((n * 2 + 1) / 2) with n; [reflexivity|].
  apply Z.div_unique with (r := 1); lia.
Qed.

Lemma py_slice_inside {A : Type} (l : list A) (lo hi : Z) :
  0 <= lo -> lo <= hi -> hi <= len l ->
  py_slice l lo hi = firstn (Z.to_nat (hi - lo)) (skipn (Z.to_nat lo) l).
Proof.
  intros Hlo Hle Hhi. unfold py_slice, clip.
  destruct (lo <? 0) eqn:E1; [apply Z.ltb_lt in E1; lia|].
  destruct (hi <? 0) eqn:E2; [apply Z.ltb_lt in E2; lia|].
  rewrite !Z.min_l by lia. reflexivity.
Qed.

Lemma total_nonneg (lengths : list Z) :
  Forall (fun l => 0 <= l) lengths -> 0 <= total lengths.
Proof.
  induction 1 as [|l more Hl _ IH]; [reflexivity|].
  change (total (l :: more)) with (l + total more). lia.
Qed.

Lemma length_table_nonneg (entrycount : Z) (entrieslengths : bytes) :
  Forall (fun l => 0 <= l) (length_table entrycount entrieslengths).
Proof.
  unfold length_table. apply Forall_map, Forall_forall.
  intros k _. apply int_from_bytes_big_nonneg.
Qed.

(** Within the buffer, the loop cuts the slices [chop] describes. *)
Lemma slice_entries_chop (entrieslengths decompressed : bytes)
    (ks : list nat) (ptr : Z) :
  let table :=
    map (fun k => int_from_bytes_big
                    (py_slice entrieslengths (2 * Z.of_nat k)
                              (2 * Z.of_nat k + 2))) ks in
  0 <= ptr ->
  ptr + total table <= len decompressed ->
  slice_entries (map (fun k => 2 * Z.of_nat k) ks)
                entrieslengths decompressed ptr =
  chop table (skipn (Z.to_nat ptr) decompressed).
Proof.
  revert ptr. induction ks as [|k ks IH]; intros ptr table Hptr Hfit;
    [reflexivity|].
  subst table. cbn [map slice_entries chop]. rewrite map_cons in Hfit.
  set (l := int_from_bytes_big
              (py_slice entrieslengths (2 * Z.of_nat k)
                        (2 * Z.of_nat k + 2))) in *.
  set (rest := map (fun k => int_from_bytes_big
                      (py_slice entrieslengths (2 * Z.of_nat k)
                                (2 * Z.of_nat k + 2))) ks) in *.
  change (total (l :: rest)) with (l + total rest) in Hfit.
  assert (Hl : 0 <= l) by apply int_from_bytes_big_nonneg.
  assert (Hrest : 0 <= total rest).
  { apply total_nonneg, Forall_map, Forall_forall.
    intros ? _. apply int_from_bytes_big_nonneg. }
  rewrite py_slice_inside by lia.
  replace (ptr + l - ptr) with l by lia. f_equal.
  subst rest. rewrite IH by lia.
  rewrite skipn_skipn. f_equal. f_equal. lia.
Qed.

Lemma len_firstn_skipn (buffer : bytes) (l : Z) :
  0 <= l <= len buffer ->
  len (firstn (Z.to_nat l) buffer) = l /\
  len (skipn (Z.to_nat l) buffer) = len buffer - l.
Proof.
  unfold len. intros H. rewrite length_firstn, length_skipn. lia.
Qed.

Lemma chop_exact (lengths : list Z) (buffer : bytes) :
  Forall (fun l => 0 <= l) lengths ->
  total lengths = len buffer ->
  List.concat (chop lengths buffer) = buffer /\
  map (@len byte) (chop lengths buffer) = lengths /\
  List.length (chop lengths buffer) = List.length lengths.
Proof.
  intros Hpos. revert buffer.
  induction Hpos as [|l more Hl Hmore IH]; intros buffer Htotal.
  - split; [|split]; try reflexivity.
    unfold len in Htotal. destruct buffer; [reflexivity|discriminate].
  - change (total (l :: more)) with (l + total more) in Htotal.
    cbn [chop List.concat map List.length].
    pose proof (total_nonneg Hmore) as Hrest.
    destruct (@len_firstn_skipn buffer l) as [Hf Hs]; [lia|].
    destruct (IH (skipn (Z.to_nat l) buffer)) as (Hc & Hm & Hn); [lia|].
    rewrite Hc, Hm, Hn, Hf, firstn_skipn. repeat split; reflexivity.
Qed.

Section Lz4Entries.

Variable L : library.
Variable outstream : fileobj.

(** Any stream but [sys.stdout] receives every entry, a newline behind
    each. *)
Lemma output_logs_bytes (entrieslist : list bytes) (s : scan_state) :
  is_sys_stdout outstream = false ->
  output_logs L outstream entrieslist s =
  (Ok tt, {| position := position s; logentries := logentries s;
             emitted := emitted s ++
               map (fun entry => WroteBytes (entry ++ [x0a])) entrieslist |}).
Proof.
  intros Hout. revert s.
  induction entrieslist as [|entry more IH]; intros s; simpl.
  - unfold ret. rewrite app_nil_r. now destruct s.
  - unfold bind. rewrite Hout. unfold emit. rewrite IH. simpl.
    now rewrite <- app_assoc.
Qed.

(** Written to [sys.stdout], entries that all decode as text are written
    as text, a newline behind each. *)
Lemma output_logs_text (entrieslist : list bytes) (texts : list string)
    (s : scan_state) :
  is_sys_stdout outstream = true ->
  Forall2 (fun entry text => bytes_decode L entry = Some text)
          entrieslist texts ->
  output_logs L outstream entrieslist s =
  (Ok tt, {| position := position s; logentries := logentries s;
             emitted := emitted s ++
               map (fun text => WroteText (text ++ newline)) texts |}).
Proof.
  intros Hout Hall. revert s.
  induction Hall as [|entry text more texts Hentry _ IH]; intros s; simpl.
  - unfold ret. rewrite app_nil_r. now destruct s.
  - unfold bind. rewrite Hout, Hentry. unfold emit. rewrite IH. simpl.
    now rewrite <- app_assoc.
Qed.

(** The list the lz4 branch builds for an entry count above 1 whose length
    table sums to the length of the buffer. *)
Lemma lz4_entries_exact (entrycount : Z) (entrieslengths decompressed : bytes) :
  1 < entrycount ->
  total (length_table entrycount entrieslengths) = len decompressed ->
  lz4_entries entrycount (entrycount * 2) entrieslengths decompressed =
    chop (length_table entrycount entrieslengths) decompressed /\
  len (chop (length_table entrycount entrieslengths) decompressed)
    = entrycount /\
  map (@len byte) (chop (length_table entrycount entrieslengths) decompressed)
    = length_table entrycount entrieslengths /\
  List.concat (chop (length_table entrycount entrieslengths) decompressed)
    = decompressed.
Proof.
  intros Hmany Htotal.
  assert (Hcut :
    lz4_entries entrycount (entrycount * 2) entrieslengths decompressed =
    chop (length_table entrycount entrieslengths) decompressed).
  { unfold lz4_entries.
    destruct (1 <? entrycount) eqn:E; [|apply Z.ltb_ge in E; lia].
    rewrite range2_double by lia.
    rewrite slice_entries_chop; [reflexivity|lia|].
    fold (length_table entrycount entrieslengths). lia. }
  destruct (chop_exact decompressed
              (length_table_nonneg entrycount entrieslengths) Htotal)
    as (Hc & Hm & Hn).
  repeat split; try assumption.
  unfold len. rewrite Hn. unfold length_table.
  rewrite length_map, length_seq. lia.
Qed.

End Lz4Entries.

(** ** The scanner *)

Section ScanFacts.

Variable L : library.
Variable fuel : nat.
Variable data : bytes.
Variable instream : reader.
Variable sourcefile : string.
Variable outstream : fileobj.

Local Abbreviation iteration :=
  (scan_iteration L fuel data instream sourcefile outstream).
Local Abbreviation loop := (scan_loop L fuel data instream sourcefile outstream).
Local Abbreviation reaches :=
  (scan_reaches L fuel data instream sourcefile outstream).

(** [n] passes that stay in the loop are the first [n] passes of every
    longer run. *)
Lemma scan_loop_reaches n s s' :
  reaches n s s' -> forall k, loop (n + k)%nat s = loop k s'.
Proof.
  induction 1 as [s|n s s1 s2 Hit Hr IH]; intros k; [reflexivity|].
  simpl. unfold bind at 1. rewrite Hit. apply IH.
Qed.

Lemma read_tag s :
  read data 2 s =
  (Ok (tag_at data (position s)),
   {| position := position s + len (tag_at data (position s));
      logentries := logentries s; emitted := emitted s |}).
Proof. reflexivity. Qed.

(** What a pass does with a tag that is none of the known ones. *)
Lemma scan_iteration_unknown s :
  tag_at data (position s) <> [] ->
  tag_at data (position s) <> magic ->
  tag_at data (position s) <> tlc_magic ->
  tag_at data (position s) <> [x00; x00] ->
  tag_at data (position s) <> [x00] ->
  iteration s =
  (Ok Break,
   {| position := position s + len (tag_at data (position s));
      logentries := logentries s;
      emitted := emitted s ++
        output_info (UnknownHeader sourcefile (tag_at data (position s))
                                   (position s)) outstream false |}).
Proof.
  intros Hne Hm Ht Hz2 Hz1.
  unfold scan_iteration, bind, tell. rewrite read_tag.
  rewrite (bytes_eqb_neq Hm), (bytes_eqb_neq Ht), (bytes_eqb_neq Hz2),
          (bytes_eqb_neq Hz1).
  simpl orb. cbv iota.
  assert (Hpos : (0 <? len (tag_at data (position s))) = true).
  { apply Z.ltb_lt. unfold len.
    destruct (tag_at data (position s)); [contradiction|simpl; lia]. }
  rewrite Hpos. reflexivity.
Qed.

End ScanFacts.



(** ** The trailer of an lz4 record whose block does not decompress *)

(** C1 fails on [corrupt_then_valid].  The failure is reported and no entry
    is written, but the pass ends at offset 21, in front of the trailer of
    the first record: the next tag is read from the trailer length 03 00,
    it is no known tag, and the scan ends at offset 23 without the record
    at offset 26 ever being read. *)
Theorem failed_block_leaves_trailer_unread :
  forall (L : library) (fuel : nat) (instream : fileobj)
         (sourcefile : string) (outstream : fileobj) (rounds : nat),
    lz4_block_decompress L [x10] 2 = None ->
    (2 <= rounds)%nat ->
    tag_at corrupt_then_valid 26 = magic /\
    scan_iteration L fuel corrupt_then_valid instream sourcefile outstream
                   scan_initial =
      (Ok Continue,
       {| position := 21; logentries := 0;
          emitted := output_info (SkippedEntry 0 (name instream))
                                 outstream false |}) /\
    decode_llogv5 L fuel corrupt_then_valid instream sourcefile outstream
                  rounds =
      (Ok tt,
       {| position := 23; logentries := 0;
          emitted :=
            output_info (SkippedEntry 0 (name instream)) outstream false ++
            output_info (UnknownHeader sourcefile [x03; x00] 21)
                        outstream false |}).
Proof.
  intros L fuel instream sourcefile outstream rounds Hfail Hrounds.
  assert (Hfirst :
    scan_iteration L fuel corrupt_then_valid instream sourcefile outstream
                   scan_initial =
    (Ok Continue,
     {| position := 21; logentries := 0;
        emitted := output_info (SkippedEntry 0 (name instream))
                               outstream false |})).
  { vm_compute. vm_compute in Hfail. rewrite Hfail. reflexivity. }
  split; [reflexivity|]. split; [exact Hfirst|].
  destruct rounds as [|[|rounds]]; try lia.
  unfold decode_llogv5. cbn [scan_loop]. unfold bind at 1. rewrite Hfirst.
  unfold bind at 1.
  rewrite (@scan_iteration_unknown L fuel corrupt_then_valid instream
             sourcefile outstream
             {| position := 21; logentries := 0;
                emitted := output_info (SkippedEntry 0 (name instream))
                                       outstream false |});
    try discriminate.
  reflexivity.
Qed.

Lemma failed_block_leaves_trailer_unread_witness :
  lz4_block_decompress sample_library [x10] 2 = None /\
  decode_llogv5 sample_library 1 corrupt_then_valid sample_instream
                "tlog.1706323123.log.gz" sample_outstream 2 =
  (Ok tt,
   {| position := 23; logentries := 0;
      emitted :=
        [Printed (SkippedEntry 0 "tlog.1706323123.log.gz");
         Printed (UnknownHeader "tlog.1706323123.log.gz"
                                [x03; x00] 21)] |}).
Proof.
  split; [reflexivity|].
  exact (proj2 (proj2 (@failed_block_leaves_trailer_unread sample_library 1
                         sample_instream "tlog.1706323123.log.gz"
                         sample_outstream 2 eq_refl (le_n 2)))).
Defined.

(** ** The error message of a tlc record *)

(** C8 fails on [padded_tlc_record].  The record's tag is read at offset 2
    from [instream], and the message [parse_tlc] emits carries offset 0
    (the module-level [file_ptr_pos]) and the name of [outstream]: the call
    passes the two streams in the other order than [parse_tlc] names
    them. *)
Theorem tlc_error_names_other_stream :
  forall (L : library) (instream : fileobj) (sourcefile : string)
         (outstream : fileobj),
    tag_at padded_tlc_record 2 = tlc_magic /\
    decode_llogv5 L 1 padded_tlc_record instream sourcefile outstream 3 =
    (Ok tt,
     {| position := 13; logentries := 0;
        emitted :=
          output_info (TlcUndecodable 0 (name outstream)) instream false ++
          output_info (DoneFile sourcefile 0) outstream false |}).
Proof.
  intros L [iname [|]] sourcefile [oname [|]]; split; reflexivity.
Qed.

(** ** Termination of the walk *)

Lemma decode_value_pointer (body : bytes) (typehigh p : Z)
    (st st1 : tlc_locals) :
  decode_value body typehigh p st = Ok st1 ->
  (typehigh = 1 -> forall l, unpack_h body p = Ok l -> 0 <= l) ->
  p <= pointer st1.
Proof.
  unfold decode_value, read_larray. intros H Hlen.
  destruct ((0 <=? typehigh) && (typehigh <=? 2)).
  - apply res_bind_Ok in H. destruct H as ([l q] & Hl & H).
    inversion H; subst; clear H. simpl.
    destruct (typehigh =? 0) eqn:E0.
    + apply res_bind_Ok in Hl. destruct Hl as (v & Hv & Hl).
      inversion Hl; subst. apply py_index_range in Hv. lia.
    + destruct (typehigh =? 1) eqn:E1.
      * apply res_bind_Ok in Hl. destruct Hl as (v & Hv & Hl).
        inversion Hl; subst. apply Z.eqb_eq in E1.
        specialize (Hlen E1 _ Hv). lia.
      * apply res_bind_Ok in Hl. destruct Hl as (v & Hv & Hl).
        inversion Hl; subst. unfold unpack_I in Hv.
        apply res_bind_Ok in Hv. destruct Hv as (w & _ & Hv).
        inversion Hv. pose proof (int_from_bytes_big_nonneg w). lia.
  - repeat match type of H with
    | (if ?c then _ else _) = _ => destruct c
    | res_bind ?m _ = Ok _ =>
        apply res_bind_Ok in H; destruct H as (? & _ & H)
    | (match ?x with pair _ _ => _ end) = _ => destruct x
    end; inversion H; simpl; lia.
Qed.

(** Every field takes the cursor at least two bytes further, unless it is
    a category-1 field with a negative length. *)
Lemma decode_field_advances (body : bytes) (st st1 : tlc_locals)
    (fieldid : Z) :
  decode_field body st = Ok (fieldid, st1) ->
  ~ negative_length_at body st ->
  pointer st + 2 <= pointer st1.
Proof.
  unfold decode_field. intros H Hneg.
  apply res_bind_Ok in H. destruct H as (b0 & Hb0 & H).
  apply res_bind_Ok in H. destruct H as (fid & _ & H).
  apply res_bind_Ok in H. destruct H as (st' & Hv & H).
  inversion H; subst; clear H.
  apply decode_value_pointer in Hv; [lia|].
  intros Hcat l Hl.
  destruct (Z.lt_ge_cases l 0) as [Hlt|Hge]; [|exact Hge].
  exfalso. apply Hneg. exists b0, l. repeat split; assumption.
Qed.

(** The operations [parse_tlc] is made of return or raise; only the bound
    on the loop can run out. *)
Lemma py_nth_fuel_free {A : Type} (l : list A) (i : Z) :
  py_nth l i <> OutOfFuel.
Proof.
  unfold py_nth. destruct (_ <? 0); [discriminate|].
  destruct (nth_error _ _); discriminate.
Qed.

Lemma py_index_fuel_free (b : bytes) (i : Z) : py_index b i <> OutOfFuel.
Proof.
  unfold py_index. pose proof (py_nth_fuel_free b i).
  destruct (py_nth b i); congruence.
Qed.

Lemma unpack_window_fuel_free (size : Z) (buffer : bytes) (offset : Z) :
  unpack_window size buffer offset <> OutOfFuel.
Proof.
  unfold unpack_window.
  repeat match goal with |- (if ?c then _ else _) <> _ => destruct c end;
    discriminate.
Qed.

Lemma res_bind_fuel_free {A B : Type} (m : res A) (k : A -> res B) :
  m <> OutOfFuel -> (forall a, k a <> OutOfFuel) -> res_bind m k <> OutOfFuel.
Proof.
  intros Hm Hk. destruct m; simpl; [apply Hk|discriminate|contradiction].
Qed.

Lemma decode_field_fuel_free (body : bytes) (st : tlc_locals) :
  decode_field body st <> OutOfFuel.
Proof.
  unfold decode_field, decode_value, read_larray,
         unpack_h, unpack_I, unpack_i, unpack_l, unpack_qq.
  repeat first
    [ apply py_index_fuel_free
    | apply unpack_window_fuel_free
    | apply res_bind_fuel_free; [|intros ?]
    | match goal with
      | |- (if ?c then _ else _) <> _ => destruct c
      | |- (match ?x with pair _ _ => _ end) <> _ => destruct x
      end
    | discriminate ].
Qed.

Lemma act_on_field_fuel_free (L : library) (instream outstream : fileobj)
    (fieldid : Z) (st : tlc_locals) :
  act_on_field L instream outstream fieldid st <> OutOfFuel.
Proof.
  unfold act_on_field, read_local.
  repeat first
    [ apply py_nth_fuel_free
    | apply res_bind_fuel_free; [|intros ?]
    | match goal with
      | |- (if ?c then _ else _) <> _ => destruct c
      | |- (match ?x with Some _ => _ | None => _ end) <> _ => destruct x
      end
    | discriminate ].
Qed.

Lemma tlc_step_fuel_free (L : library) (body : bytes)
    (instream outstream : fileobj) (st : tlc_locals) :
  tlc_step L body instream outstream st <> OutOfFuel.
Proof.
  unfold tlc_step. apply res_bind_fuel_free.
  - apply decode_field_fuel_free.
  - intros [fieldid st']. apply act_on_field_fuel_free.
Qed.

Section Termination.

Variable L : library.
Variable body : bytes.
Variables instream outstream : fileobj.

Hypothesis lengths_not_negative :
  forall n st,
    tlc_walk L body instream outstream any_field n tlc_initial st ->
    ~ negative_length_at body st.

Lemma tlc_loop_ends (fuel : nat) :
  forall n st evs,
    tlc_walk L body instream outstream any_field n tlc_initial st ->
    Z.max 0 (len body - pointer st) < Z.of_nat fuel ->
    fst (tlc_loop L fuel body instream outstream st evs) <> OutOfFuel.
Proof.
  induction fuel as [|fuel IH]; intros n st evs Hw Hfuel; [lia|].
  simpl. destruct (pointer st <? len body) eqn:Hin; [|discriminate].
  apply Z.ltb_lt in Hin.
  destruct (tlc_step L body instream outstream st)
    as [[[st'|buffer] e]|x|] eqn:Hstep; try discriminate.
  - unfold tlc_step in Hstep.
    destruct (decode_field body st) as [[fieldid st1]| |] eqn:Hd;
      try discriminate.
    simpl in Hstep.
    pose proof (@decode_field_advances body st st1 fieldid Hd
                  (lengths_not_negative Hw)) as Hadv.
    destruct (@act_on_field_next L instream outstream fieldid st1 st' e Hstep)
      as [_ Hst'].
    assert (Hp : pointer st' = pointer st1).
    { destruct Hst' as [[Hu _]|[_ ->]]; [|reflexivity].
      unfold act_on_field in Hstep. rewrite Hu in Hstep. simpl in Hstep.
      apply res_bind_Ok in Hstep. destruct Hstep as (v & _ & Hstep).
      inversion Hstep. reflexivity. }
    apply (IH (n + 1)%nat).
    + eapply tlc_walk_app; [exact Hw|].
      econstructor; [exact Hd|exact I|exact Hstep|constructor].
    + lia.
  - exfalso. eapply tlc_step_fuel_free; eauto.
Qed.

(** When no category-1 field that the walk reaches has a negative length,
    [parse_tlc] ends (with a buffer or an exception) within [len body + 1]
    iterations. *)
Theorem parse_tlc_terminates :
  forall fuel, len body < Z.of_nat fuel ->
    fst (parse_tlc L fuel body instream outstream) <> OutOfFuel.
Proof.
  intros fuel Hfuel. unfold parse_tlc.
  apply (@tlc_loop_ends fuel O); [constructor|].
  change (pointer tlc_initial) with 0. unfold len in *. lia.
Qed.

End Termination.

(** ** Values by category *)

Lemma unpack_window_inside (size : Z) (buffer : bytes) (offset : Z) :
  0 <= offset -> offset + size <= len buffer ->
  unpack_window size buffer offset = Ok (bytes_at buffer offset size).
Proof.
  intros Hoff Hfit. unfold unpack_window, bytes_at.
  destruct (offset <? 0) eqn:E; [apply Z.ltb_lt in E; lia|].
  destruct (len buffer - offset <? size) eqn:E'; [apply Z.ltb_lt in E'; lia|].
  reflexivity.
Qed.

Lemma skipn_nth_error {A : Type} (l : list A) (n : nat) (x : A) :
  nth_error l n = Some x -> skipn n l = x :: skipn (S n) l.
Proof.
  revert l. induction n as [|n IH]; intros [|y l] H; try discriminate.
  - inversion H. reflexivity.
  - simpl in H. rewrite skipn_cons. apply IH. exact H.
Qed.

Lemma py_index_inside (b : bytes) (i : Z) :
  0 <= i < len b ->
  py_index b i = Ok (int_from_bytes_big (bytes_at b i 1)).
Proof.
  intros Hi. unfold py_index, py_nth, bytes_at.
  destruct (i <? 0) eqn:E; [apply Z.ltb_lt in E; lia|]. rewrite E.
  destruct (nth_error b (Z.to_nat i)) as [x|] eqn:Hn.
  - rewrite (skipn_nth_error _ _ Hn). reflexivity.
  - apply nth_error_None in Hn. unfold len in Hi. lia.
Qed.

(** What the first [if] chain decodes when the bytes it needs lie inside
    [body] (cursor [p] not negative): categories 0, 1 and 2 read an array
    behind a length prefix of one (unsigned), two (signed) and four
    (unsigned) bytes, and the cursor moves by the prefix and the length;
    categories 3, 4 and 5 read an unsigned byte, a signed two-byte and a
    signed four-byte integer; categories 6 and 7 move the cursor by 8 and
    16. *)
Theorem decode_value_by_category :
  forall (body : bytes) (p : Z) (st : tlc_locals),
    0 <= p ->
    (p + 1 <= len body ->
     let l := int_from_bytes_big (bytes_at body p 1) in
     decode_value body 0 p st =
     Ok {| pointer := p + 1 + l; lunzipped := lunzipped st;
           value := value st;
           array := Some (py_slice body (p + 1) (p + 1 + l)) |}) /\
    (p + 2 <= len body ->
     let l := signed 16 (int_from_bytes_big (bytes_at body p 2)) in
     decode_value body 1 p st =
     Ok {| pointer := p + 2 + l; lunzipped := lunzipped st;
           value := value st;
           array := Some (py_slice body (p + 2) (p + 2 + l)) |}) /\
    (p + 4 <= len body ->
     let l := int_from_bytes_big (bytes_at body p 4) in
     decode_value body 2 p st =
     Ok {| pointer := p + 4 + l; lunzipped := lunzipped st;
           value := value st;
           array := Some (py_slice body (p + 4) (p + 4 + l)) |}) /\
    (p + 1 <= len body ->
     decode_value body 3 p st =
     Ok {| pointer := p + 1; lunzipped := lunzipped st;
           value := Some (int_from_bytes_big (bytes_at body p 1));
           array := array st |}) /\
    (p + 2 <= len body ->
     decode_value body 4 p st =
     Ok {| pointer := p + 2; lunzipped := lunzipped st;
           value := Some (signed 16 (int_from_bytes_big (bytes_at body p 2)));
           array := array st |}) /\
    (p + 4 <= len body ->
     decode_value body 5 p st =
     Ok {| pointer := p + 4; lunzipped := lunzipped st;
           value := Some (signed 32 (int_from_bytes_big (bytes_at body p 4)));
           array := array st |}) /\
    (forall st1, decode_value body 6 p st = Ok st1 -> pointer st1 = p + 8) /\
    (forall st1, decode_value body 7 p st = Ok st1 -> pointer st1 = p + 16).
Proof.
  intros body p st Hp. unfold decode_value, read_larray. simpl.
  repeat split.
  - intros Hfit. rewrite py_index_inside by lia. reflexivity.
  - intros Hfit. unfold unpack_h.
    rewrite unpack_window_inside by lia. reflexivity.
  - intros Hfit. unfold unpack_I.
    rewrite unpack_window_inside by lia. reflexivity.
  - intros Hfit. rewrite py_index_inside by lia. reflexivity.
  - intros Hfit. unfold unpack_h.
    rewrite unpack_window_inside by lia. reflexivity.
  - intros Hfit. unfold unpack_i.
    rewrite unpack_window_inside by lia. reflexivity.
  - intros st1 H. apply res_bind_Ok in H. destruct H as (v & _ & H).
    inversion H. reflexivity.
  - intros st1 H. apply res_bind_Ok in H. destruct H as ([a b] & _ & H).
    inversion H. reflexivity.
Qed.

(** A two-byte length of 3 in front of three bytes, and the two-byte
    integer -2. *)
Lemma decode_value_by_category_witness :
  decode_value [x00; x03; x41; x42; x43] 1 0 tlc_initial =
    Ok {| pointer := 5; lunzipped := 0; value := None;
          array := Some [x41; x42; x43] |} /\
  decode_value [xff; xfe] 4 0 tlc_initial =
    Ok {| pointer := 2; lunzipped := 0; value := Some (-2);
          array := None |}.
Proof.
  split.
  - apply (proj1 (proj2 (@decode_value_by_category
                           [x00; x03; x41; x42; x43] 0 tlc_initial
                           (Z.le_refl 0)))).
    discriminate.
  - apply (proj1 (proj2 (proj2 (proj2 (proj2
             (@decode_value_by_category [xff; xfe] 0 tlc_initial
                                        (Z.le_refl 0))))))).
    discriminate.
Defined.

(** ** The messages of [parse_tlc] *)

Lemma act_on_field_return (L : library) (instream outstream : fileobj)
    (fieldid : Z) (st : tlc_locals) (buffer : bytes) (e : list event) :
  act_on_field L instream outstream fieldid st = Ok (TlcReturn buffer, e) ->
  e = [] \/
  e = output_info (TlcUndecodable 0 (name instream)) outstream false \/
  e = output_info (SkippedEntry 0 (name instream)) outstream false.
Proof.
  unfold act_on_field, read_local. intros H.
  apply res_bind_Ok in H. destruct H as (fname & _ & H).
  repeat match type of H with
  | (if ?c then _ else _) = _ => destruct c
  | res_bind ?m _ = Ok _ =>
      apply res_bind_Ok in H; destruct H as (? & _ & H)
  | match ?x with Some _ => _ | None => _ end = _ => destruct x
  end; inversion H; subst; auto.
Qed.

Lemma parse_tlc_emits (L : library) (fuel : nat) (body : bytes)
    (instream outstream : fileobj) :
  snd (parse_tlc L fuel body instream outstream) = [] \/
  snd (parse_tlc L fuel body instream outstream) =
    output_info (TlcUndecodable 0 (name instream)) outstream false \/
  snd (parse_tlc L fuel body instream outstream) =
    output_info (SkippedEntry 0 (name instream)) outstream false.
Proof.
  unfold parse_tlc. generalize tlc_initial.
  induction fuel as [|fuel IH]; intros st; simpl; [now left|].
  destruct (pointer st <? len body); [|now left].
  destruct (tlc_step L body instream outstream st)
    as [[[st'|buffer] e]|x|] eqn:Hstep; simpl; try (now left).
  - unfold tlc_step in Hstep.
    destruct (decode_field body st) as [[fieldid st1]| |];
      try discriminate.
    simpl in Hstep.
    destruct (act_on_field_next _ _ _ _ _ Hstep) as [-> _]. apply IH.
  - unfold tlc_step in Hstep.
    destruct (decode_field body st) as [[fieldid st1]| |];
      try discriminate.
    simpl in Hstep. eapply act_on_field_return; eauto.
Qed.

(** Whatever the body, a call of [parse_tlc] emits nothing or one message,
    and that message carries offset 0, the value of the module-level
    [file_ptr_pos], and the name of the stream passed as [instream]. *)
Theorem parse_tlc_messages :
  forall (L : library) (fuel : nat) (body : bytes)
         (instream outstream : fileobj),
    snd (parse_tlc L fuel body instream outstream) = [] \/
    snd (parse_tlc L fuel body instream outstream) =
      output_info (TlcUndecodable 0 (name instream)) outstream false \/
    snd (parse_tlc L fuel body instream outstream) =
      output_info (SkippedEntry 0 (name instream)) outstream false.
Proof.
  intros L fuel body instream outstream. apply parse_tlc_emits.
Qed.

(** ** The two parts of an lz4 record *)

Lemma emit_nil (s : scan_state) : emit [] s = (Ok tt, s).
Proof.
  unfold emit. rewrite app_nil_r. now destruct s.
Qed.

Lemma int_from_bytes_little_nonneg (b : bytes) :
  0 <= int_from_bytes_little b.
Proof.
  unfold int_from_bytes_little.
  induction b as [|x b IH]; cbn [fold_right]; [lia|].
  pose proof (byte_val_range x). lia.
Qed.

Lemma read_inside (data : bytes) (n : Z) (s : scan_state) :
  0 <= n ->
  read data n s =
  (Ok (bytes_at data (position s) n),
   {| position := position s + len (bytes_at data (position s) n);
      logentries := logentries s; emitted := emitted s |}).
Proof.
  intros Hn. unfold read, bytes_at.
  destruct (n <? -1) eqn:E; [apply Z.ltb_lt in E; lia|].
  destruct (n <? 0) eqn:E'; [apply Z.ltb_lt in E'; lia|].
  reflexivity.
Qed.

Lemma skip_lz4_trailer_spec (data : bytes) (s : scan_state) :
  skip_lz4_trailer data s =
  (Ok tt, {| position := after_trailer data (position s);
             logentries := logentries s; emitted := emitted s |}).
Proof.
  unfold skip_lz4_trailer, after_trailer, bind, ret.
  rewrite read_inside by lia.
  rewrite read_inside by apply int_from_bytes_little_nonneg.
  reflexivity.
Qed.

Section Lz4Record.

Variable L : library.
Variable data : bytes.
Variable instream : reader.
Variable outstream : fileobj.

Lemma failed_block_path (file_ptr_pos : Z) (s s1 : scan_state)
    (parts : lz4_parts) :
  read_lz4_parts data outstream s = (Ok parts, s1) ->
  lz4_block_decompress L (part_compressed parts)
                       (part_ldecompressed parts + 1) = None ->
  lz4_record L data instream outstream file_ptr_pos s =
  if has_name instream then
    (Ok Continue,
     {| position := position s1; logentries := logentries s1;
        emitted := emitted s1 ++
          output_info (SkippedEntry file_ptr_pos (name (as_file instream)))
                      outstream false |})
  else (Raise AttributeError, s1).
Proof.
  intros Hparts Hfail.
  unfold lz4_record. unfold bind at 1.
  change (output_info (FoundLz4Entry file_ptr_pos) outstream true)
    with (@nil event).
  rewrite emit_nil. unfold bind at 1. rewrite Hparts.
  unfold bind at 1, try_except, emit_lz4_entries.
  unfold bind at 1. unfold bind at 1. unfold lift at 1. rewrite Hfail.
  unfold bind at 2. unfold lift, stream_name.
  destruct (has_name instream); reflexivity.
Qed.

(** When the block of an lz4 record does not decompress, the pass ends
    where reading the body left the stream, and neither the trailer length
    nor the trailer is consumed.  On a stream that has a [name] one message
    is emitted, no entry is counted or written, and the scan goes on; on a
    stream without one, the handler raises [AttributeError] where it
    formats the message, nothing is emitted, and the exception leaves the
    pass. *)
Theorem failed_block_ends_before_trailer :
  forall (file_ptr_pos : Z) (s s1 : scan_state) (parts : lz4_parts),
    read_lz4_parts data outstream s = (Ok parts, s1) ->
    lz4_block_decompress L (part_compressed parts)
                         (part_ldecompressed parts + 1) = None ->
    lz4_record L data instream outstream file_ptr_pos s =
    if has_name instream then
      (Ok Continue,
       {| position := position s1; logentries := logentries s1;
          emitted := emitted s1 ++
            output_info (SkippedEntry file_ptr_pos (name (as_file instream)))
                        outstream false |})
    else (Raise AttributeError, s1).
Proof.
  intros fpp s s1 parts Hparts Hfail.
  unfold lz4_record. unfold bind at 1.
  change (output_info (FoundLz4Entry fpp) outstream true) with (@nil event).
  rewrite emit_nil. unfold bind at 1. rewrite Hparts.
  unfold bind at 1, try_except, emit_lz4_entries.
  unfold bind at 1. unfold bind at 1. unfold lift at 1. rewrite Hfail.
  unfold bind at 2. unfold lift, stream_name.
  destruct (has_name instream); reflexivity.
Qed.

(** When it does decompress and the entries are written (to a stream that
    is not [sys.stdout]), the pass ends behind the trailer. *)
Theorem decoded_block_skips_trailer :
  forall (file_ptr_pos : Z) (s s1 : scan_state) (parts : lz4_parts)
         (decompressed : bytes),
    read_lz4_parts data outstream s = (Ok parts, s1) ->
    lz4_block_decompress L (part_compressed parts)
                         (part_ldecompressed parts + 1) = Some decompressed ->
    is_sys_stdout outstream = false ->
    forall entries,
      entries = lz4_entries (part_entrycount parts) (part_lentrycounts parts)
                            (part_entrieslengths parts) decompressed ->
      lz4_record L data instream outstream file_ptr_pos s =
      (Ok Continue,
       {| position := after_trailer data (position s1);
          logentries := logentries s1 + len entries;
          emitted := emitted s1 ++
            map (fun entry => WroteBytes (entry ++ [x0a])) entries |}).
Proof.
  intros fpp s s1 parts decompressed Hparts Hdec Hout entries ->.
  unfold lz4_record. unfold bind at 1.
  change (output_info (FoundLz4Entry fpp) outstream true) with (@nil event).
  rewrite emit_nil. unfold bind at 1. rewrite Hparts.
  unfold bind at 1, try_except, emit_lz4_entries.
  unfold bind at 1. unfold bind at 1. unfold lift at 1. rewrite Hdec.
  unfold bind at 1, count_logs.
  rewrite (@output_logs_bytes L outstream _ _ Hout).
  unfold ret at 1. unfold bind at 1. rewrite skip_lz4_trailer_spec.
  reflexivity.
Qed.

End Lz4Record.

(** ** The entries written for an lz4 record *)

Lemma read_lz4_parts_counts (data : bytes) (outstream : fileobj)
    (s s1 : scan_state) (parts : lz4_parts) :
  read_lz4_parts data outstream s = (Ok parts, s1) ->
  part_lentrycounts parts = part_entrycount parts * 2.
Proof.
  unfold read_lz4_parts, bind, lift, ret. intros H.
  repeat match type of H with
  | (let (_, _) := ?m in _) = _ => destruct m as [[?|?|] ?]
  | match ?m with Ok _ => _ | Raise _ => _ | OutOfFuel => _ end = _ =>
      destruct m
  | (Raise _, _) = (Ok _, _) => discriminate H
  | (OutOfFuel, _) = (Ok _, _) => discriminate H
  end.
  inversion H; subst. reflexivity.
Qed.




(** ** The entries written for a tlc record *)

(** A tlc record whose length field is at least 8 and whose body
    [parse_tlc] turns into the buffer [tlc]: the pass ends behind the body,
    and what it writes (to a stream that is not [sys.stdout]) is, behind
    the messages of [parse_tlc], exactly [tlc_entries tlc] in order. *)
Theorem tlc_record_writes_entries :
  forall (L : library) (fuel : nat) (data : bytes)
         (instream : reader) (outstream : fileobj) (file_ptr_pos : Z)
         (s : scan_state)
         (tlc : bytes) (evs : list event),
    let p1 := position s + len (bytes_at data (position s) 2) in
    let lbytes := bytes_at data p1 4 in
    let p2 := p1 + len lbytes in
    let body := bytes_at data p2 (int_from_bytes_big lbytes - 8) in
    8 <= int_from_bytes_big lbytes ->
    parse_tlc L fuel body outstream (as_file instream) = (Ok tlc, evs) ->
    is_sys_stdout outstream = false ->
    tlc_record L fuel data instream outstream file_ptr_pos s =
    (Ok Continue,
     {| position := p2 + len body;
        logentries := logentries s + len (tlc_entries tlc);
        emitted := (emitted s ++ evs) ++
          map (fun entry => WroteBytes (entry ++ [x0a])) (tlc_entries tlc) |}).
Proof.
  intros L fuel data instream outstream fpp s tlc evs p1 lbytes p2 body
         Hlen Hparse Hout.
  unfold tlc_record. unfold bind at 1.
  change (output_info (FoundTlcEntry fpp) outstream true) with (@nil event).
  rewrite emit_nil. unfold bind at 1. rewrite read_inside by lia.
  unfold bind at 1. rewrite read_inside by lia.
  cbn [position logentries emitted]. fold p1. fold lbytes.
  unfold bind at 1. rewrite read_inside by lia.
  cbn [position logentries emitted]. fold p2. fold body.
  unfold bind at 1, call_parse_tlc. rewrite Hparse.
  unfold bind at 1, count_logs. cbn [position logentries emitted].
  unfold bind at 1.
  change (output_info (DecodedTlcLogs (len (tlc_entries tlc))) outstream true)
    with (@nil event).
  rewrite emit_nil. unfold bind at 1.
  rewrite (@output_logs_bytes L outstream _ _ Hout). reflexivity.
Qed.

(** ** Termination of the scan *)

Lemma len_bytes_at (data : bytes) (p n : Z) :
  0 <= p <= len data -> 0 <= len (bytes_at data p n) <= len data - p.
Proof.
  unfold len, bytes_at. intros Hp.
  rewrite length_firstn, length_skipn. lia.
Qed.

Section Forward.

Variable L : library.
Variable data : bytes.
Variable instream : reader.
Variable outstream : fileobj.

Local Abbreviation fwd := (forward data).

Lemma forward_ret {A : Type} (a : A) : fwd (ret a).
Proof.
  intros s r s' [H0 H1] H. inversion H; subst. repeat split; try lia.
  discriminate.
Qed.

Lemma forward_lift {A : Type} (r : res A) : r <> OutOfFuel -> fwd (lift r).
Proof.
  intros Hr s r' s' [H0 H1] H. inversion H; subst. repeat split; try lia.
  exact Hr.
Qed.

Lemma forward_emit (evs : list event) : fwd (emit evs).
Proof.
  intros s r s' [H0 H1] H. inversion H; subst. simpl.
  repeat split; try lia. discriminate.
Qed.

Lemma forward_count_logs (k : Z) : fwd (count_logs k).
Proof.
  intros s r s' [H0 H1] H. inversion H; subst. simpl.
  repeat split; try lia. discriminate.
Qed.

Lemma forward_get_logentries : fwd get_logentries.
Proof.
  intros s r s' [H0 H1] H. inversion H; subst.
  repeat split; try lia. discriminate.
Qed.

Lemma read_chunk_fits (n : Z) (s : scan_state) :
  in_stream data s ->
  0 <= len (if n <? 0
            then skipn (Z.to_nat (position s)) data
            else firstn (Z.to_nat n) (skipn (Z.to_nat (position s)) data))
    <= len data - position s.
Proof.
  intros Hin. destruct Hin. unfold len in *.
  destruct (n <? 0); rewrite ?length_firstn, length_skipn; lia.
Qed.

Lemma forward_read (n : Z) : fwd (read data n).
Proof.
  intros s r s' Hin H. unfold read in H.
  destruct (n <? -1).
  - inversion H; subst. destruct Hin. repeat split; try lia. discriminate.
  - inversion H; subst; clear H. simpl.
    pose proof (read_chunk_fits n Hin) as Hlen.
    destruct Hin. repeat split; try lia. discriminate.
Qed.

Lemma forward_bind {A B : Type} (m : M A) (k : A -> M B) :
  fwd m -> (forall a, fwd (k a)) -> fwd (bind m k).
Proof.
  intros Hm Hk s r s' Hin H. unfold bind in H.
  destruct (m s) as [[a|e|] s1] eqn:Hms.
  - destruct (Hm _ _ _ Hin Hms) as [Hpos _].
    assert (Hin1 : in_stream data s1) by (destruct Hin; split; lia).
    destruct (Hk a _ _ _ Hin1 H) as [Hpos' Hfuel].
    split; [lia|exact Hfuel].
  - inversion H; subst. destruct (Hm _ _ _ Hin Hms) as [Hpos _].
    split; [exact Hpos|discriminate].
  - inversion H; subst. destruct (Hm _ _ _ Hin Hms) as [_ Hfuel].
    now contradiction Hfuel.
Qed.

Lemma forward_try_except {A : Type} (m handler : M A) :
  fwd m -> fwd handler -> fwd (try_except m handler).
Proof.
  intros Hm Hh s r s' Hin H. unfold try_except in H.
  destruct (m s) as [[a|e|] s1] eqn:Hms.
  - inversion H; subst. exact (Hm _ _ _ Hin Hms).
  - destruct (Hm _ _ _ Hin Hms) as [Hpos _].
    assert (Hin1 : in_stream data s1) by (destruct Hin; split; lia).
    destruct (Hh _ _ _ Hin1 H) as [Hpos' Hfuel].
    split; [lia|exact Hfuel].
  - inversion H; subst. exact (Hm _ _ _ Hin Hms).
Qed.

Lemma stream_name_fuel_free (r : reader) : stream_name r <> OutOfFuel.
Proof. unfold stream_name. destruct (has_name r); discriminate. Qed.

Create HintDb forward.

#[local] Hint Resolve forward_ret forward_emit forward_count_logs
  forward_get_logentries forward_read py_index_fuel_free
  stream_name_fuel_free : forward.

Ltac forward_steps :=
  repeat first
    [ apply forward_bind; [|intros ?]
    | apply forward_try_except
    | apply forward_lift
    | solve [auto with forward]
    | match goal with
      | |- forward _ (if ?c then _ else _) => destruct c
      | |- forward _ (match ?x with Some _ => _ | None => _ end) =>
          destruct x
      | |- (match ?x with Some _ => _ | None => _ end) <> OutOfFuel =>
          destruct x
      end
    | discriminate ].

Lemma forward_output_logs (entrieslist : list bytes) :
  fwd (output_logs L outstream entrieslist).
Proof.
  induction entrieslist as [|entry more IH]; simpl; forward_steps.
Qed.

(** The lz4 branch moves forward and ends. *)
Lemma forward_lz4_record (file_ptr_pos : Z) :
  fwd (lz4_record L data instream outstream file_ptr_pos).
Proof.
  unfold lz4_record, read_lz4_parts, emit_lz4_entries, skip_lz4_trailer.
  forward_steps; apply forward_output_logs.
Qed.

(** So does what the tlc branch does with the buffer of [parse_tlc]. *)
Lemma forward_tlc_entries (tlc : bytes) :
  fwd (bind (count_logs (len (tlc_entries tlc)))
         (fun _ =>
            bind (emit (output_info (DecodedTlcLogs (len (tlc_entries tlc)))
                                    outstream true))
              (fun _ =>
                 bind (output_logs L outstream (tlc_entries tlc))
                      (fun _ => ret Continue)))).
Proof.
  forward_steps; apply forward_output_logs.
Qed.

End Forward.

Section ScanTermination.

Variable L : library.
Variable fuel : nat.
Variable data : bytes.
Variable instream : reader.
Variable sourcefile : string.
Variable outstream : fileobj.

Local Abbreviation reaches :=
  (scan_reaches L fuel data instream sourcefile outstream).

(** The tlc branch moves forward, and it is cut off only where its call of
    [parse_tlc] is; [s] is the state behind the tag. *)
Lemma tlc_record_forward (file_ptr_pos : Z) (s s' : scan_state)
    (r : res loop_ctl) :
  in_stream data s ->
  tlc_record L fuel data instream outstream file_ptr_pos s = (r, s') ->
  position s <= position s' <= len data /\
  (r = OutOfFuel ->
   fst (parse_tlc L fuel (tlc_body_at data (position s - 2)) outstream
                  (as_file instream)) = OutOfFuel).
Proof.
  intros Hin. unfold tlc_record. unfold bind at 1.
  change (output_info (FoundTlcEntry file_ptr_pos) outstream true)
    with (@nil event).
  rewrite emit_nil. unfold bind at 1. rewrite read_inside by lia.
  unfold bind at 1. rewrite read_inside by lia.
  cbn [position logentries emitted].
  unfold tlc_body_at.
  replace (position s - 2 + 2) with (position s) by lia.
  pose proof (@len_bytes_at data (position s) 2 Hin) as H1.
  set (p1 := position s + len (bytes_at data (position s) 2)) in *.
  assert (Hp1 : 0 <= p1 <= len data) by (destruct Hin; lia).
  pose proof (@len_bytes_at data p1 4 Hp1) as H2.
  set (lbytes := bytes_at data p1 4) in *.
  set (p2 := p1 + len lbytes) in *.
  set (n := int_from_bytes_big lbytes - 8).
  intros H. unfold bind at 1 in H. unfold read at 1 in H.
  cbn [position logentries emitted] in H.
  destruct (n <? -1) eqn:E1.
  { inversion H; subst. simpl. split; [destruct Hin; lia|discriminate]. }
  assert (Hin2 : in_stream data {| position := p2;
                                   logentries := logentries s;
                                   emitted := emitted s |}).
  { destruct Hin. split; simpl; lia. }
  pose proof (@read_chunk_fits data n _ Hin2) as Hfit.
  cbn [position] in Hfit.
  assert (Hbody : (if n <? 0 then skipn (Z.to_nat p2) data
                   else firstn (Z.to_nat n) (skipn (Z.to_nat p2) data))
                  = (if n <? 0 then skipn (Z.to_nat p2) data
                     else bytes_at data p2 n)) by reflexivity.
  rewrite Hbody in H, Hfit. clear Hbody.
  set (body := if n <? 0 then skipn (Z.to_nat p2) data
               else bytes_at data p2 n) in *.
  unfold bind at 1, call_parse_tlc in H.
  destruct (parse_tlc L fuel body outstream (as_file instream))
    as [[tlc|x|] evs] eqn:Hp.
  - assert (Hin3 : in_stream data
                     {| position := p2 + len body;
                        logentries := logentries s;
                        emitted := emitted s ++ evs |}).
    { destruct Hin. split; simpl; lia. }
    destruct (@forward_tlc_entries L data outstream tlc _ _ _ Hin3 H)
      as [Hpos Hfuel].
    cbn [position] in Hpos. split; [destruct Hin; lia|].
    intros ->. contradiction.
  - inversion H; subst. simpl. split; [destruct Hin; lia|discriminate].
  - inversion H; subst. simpl. split; [destruct Hin; lia|].
    intros _.
    change (fst (parse_tlc L fuel body outstream (as_file instream))
            = OutOfFuel).
    now rewrite Hp.
Qed.

(** A pass moves the read position forward, one that stays in the loop has
    consumed at least one byte, and one that is cut off stands at a tlc
    record on whose body [parse_tlc] is cut off. *)
Lemma scan_iteration_forward (s s' : scan_state) (r : res loop_ctl) :
  in_stream data s ->
  scan_iteration L fuel data instream sourcefile outstream s = (r, s') ->
  position s <= position s' <= len data /\
  (r = Ok Continue -> position s < position s') /\
  (r = OutOfFuel ->
   tag_at data (position s) = tlc_magic /\
   fst (parse_tlc L fuel (tlc_body_at data (position s)) outstream
                  (as_file instream)) = OutOfFuel).
Proof.
  intros Hin H. unfold scan_iteration, bind, tell in H.
  rewrite read_tag in H.
  pose proof (@len_bytes_at data (position s) 2 Hin) as Htag.
  change (bytes_at data (position s) 2) with (tag_at data (position s))
    in Htag.
  set (t := tag_at data (position s)) in *.
  set (s1 := {| position := position s + len t;
                logentries := logentries s; emitted := emitted s |}) in *.
  assert (Hin1 : in_stream data s1).
  { destruct Hin. split; simpl; lia. }
  destruct (bytes_eqb t magic) eqn:Em.
  { apply bytes_eqb_eq in Em.
    destruct (@forward_lz4_record L data instream outstream
                (position s) s1 r s' Hin1 H) as [Hpos Hfuel].
    assert (Hlen : len t = 2) by (rewrite Em; reflexivity).
    simpl in Hpos. split; [lia|]. split; [intros _; lia|].
    intros Hr. contradiction. }
  destruct (bytes_eqb t tlc_magic) eqn:Et.
  { apply bytes_eqb_eq in Et.
    destruct (@tlc_record_forward (position s) s1 s' r Hin1 H)
      as [Hpos Hfuel].
    assert (Hlen : len t = 2) by (rewrite Et; reflexivity).
    simpl in Hpos, Hfuel.
    replace (position s + len t - 2) with (position s) in Hfuel by lia.
    split; [lia|]. split; [intros _; lia|].
    intros Hr. split; [exact Et|now apply Hfuel]. }
  destruct (bytes_eqb t [x00; x00] || bytes_eqb t [x00]) eqn:Ez.
  { assert (Hlen : 1 <= len t).
    { apply orb_true_iff in Ez.
      destruct Ez as [E|E]; apply bytes_eqb_eq in E; rewrite E;
        unfold len; simpl; lia. }
    inversion H; subst. simpl. repeat split; try lia; discriminate. }
  destruct (0 <? len t).
  - inversion H; subst. simpl. repeat split; try lia; discriminate.
  - inversion H; subst. simpl. repeat split; try lia; discriminate.
Qed.

Lemma scan_loop_ends (rounds : nat) :
  forall s,
    in_stream data s ->
    len data - position s < Z.of_nat rounds ->
    fst (scan_loop L fuel data instream sourcefile outstream rounds s)
      = OutOfFuel ->
    exists n s1,
      reaches n s s1 /\
      tag_at data (position s1) = tlc_magic /\
      fst (parse_tlc L fuel (tlc_body_at data (position s1)) outstream
                     (as_file instream)) = OutOfFuel.
Proof.
  induction rounds as [|rounds IH]; intros s Hin Hrounds H.
  - destruct Hin. lia.
  - simpl in H. unfold bind in H.
    destruct (scan_iteration L fuel data instream sourcefile outstream s)
      as [[[|]|e|] s1] eqn:Hit; simpl in H; try discriminate.
    + destruct (scan_iteration_forward Hin Hit) as (Hpos & Hstrict & _).
      specialize (Hstrict eq_refl).
      destruct (IH s1) as (n & s2 & Hr & Htag & Hout);
        [destruct Hin; split; lia|lia|exact H|].
      exists (S n), s2. split; [|split; assumption].
      eapply reach_round; [exact Hit|exact Hr].
    + destruct (scan_iteration_forward Hin Hit) as (_ & _ & Hfuel).
      destruct (Hfuel eq_refl) as [Htag Hout].
      exists O, s. split; [apply reach_here|split; assumption].
Qed.


End ScanTermination.


(** ** Runs on the sample streams *)

(** The block scenario: two entries of four and six bytes, ten in all. *)
Example two_entry_block_run :
  decode_llogv5 sample_library 1 two_entry_block sample_instream
                "tlog.1706323123.log.gz" sample_outstream 2 =
  (Ok tt,
   {| position := 61; logentries := 2;
      emitted :=
        [WroteBytes (list_byte_of_string "abcd" ++ [x0a]);
         WroteBytes (list_byte_of_string "123456" ++ [x0a]);
         Printed (DoneFile "tlog.1706323123.log.gz" 2)] |}).
Proof. vm_compute. reflexivity. Qed.

(** The envelope scenario: two entries, each starting with the marker. *)
Example two_entry_envelope_run :
  decode_llogv5 sample_library 5 two_entry_envelope sample_instream
                "tlog.1706323123.log.gz" sample_outstream 2 =
  (Ok tt,
   {| position := 134; logentries := 2;
      emitted :=
        [WroteBytes (list_byte_of_string "date=2024-02-14 msg=up" ++ [x0a]);
         WroteBytes (list_byte_of_string "date=2024-02-14 msg=down"
                       ++ [x0a]);
         Printed (DoneFile "tlog.1706323123.log.gz" 2)] |}).
Proof. vm_compute. reflexivity. Qed.

(** Written to [sys.stdout], the same entries are text and the messages
    go to the log file. *)
Example two_entry_envelope_stdout_run :
  decode_llogv5 sample_library 5 two_entry_envelope sample_instream
                "tlog.1706323123.log.gz"
                {| name := "<stdout>"; is_sys_stdout := true |} 2 =
  (Ok tt,
   {| position := 134; logentries := 2;
      emitted :=
        [WroteText ("date=2024-02-14 msg=up" ++ newline);
         WroteText ("date=2024-02-14 msg=down" ++ newline);
         Logged (DoneFile "tlog.1706323123.log.gz" 2)] |}).
Proof. vm_compute. reflexivity. Qed.

(** A field id outside the table ends the whole file: the [IndexError]
    leaves [decode_llogv5], [process_file] reports the file as one that
    failed to open, and the lz4 record behind the tlc record is not
    decoded. *)
Example bad_field_then_block_run :
  decode_llogv5 sample_library 5 bad_field_then_block sample_instream
                "tlog.1706323123.log.gz" sample_outstream 3 =
    (Raise IndexError,
     {| position := 11; logentries := 0; emitted := [] |}) /\
  process_file sample_library 5 bad_field_then_block sample_instream
               "tlog.1706323123.log.gz" sample_outstream 3 =
    (Ok tt,
     {| position := 11; logentries := 0;
        emitted := [Printed (SkippedFile "tlog.1706323123.log.gz")] |}).
Proof. split; vm_compute; reflexivity. Qed.

(** ** Instances of the statements above *)

(** An [unzip-len] field, then [zbuf] with an empty array: no length is
    negative, and three iterations are more than enough. *)
Lemma parse_tlc_terminates_witness :
  fst (parse_tlc sample_library 10
                 [x50; x0c; x00; x00; x00; x05; x00; x10; x00]
                 sample_outstream sample_instream) <> OutOfFuel.
Proof.
  apply (@parse_tlc_terminates sample_library
           [x50; x0c; x00; x00; x00; x05; x00; x10; x00]
           sample_outstream sample_instream);
    [|reflexivity].
  intros n st Hw (b0 & l & Hb & Hcat & _).
  inversion Hw as [st0|n0 st0 fid st1 st2 st3 e Hd _ Ha Hw']; subst.
  - vm_compute in Hb. inversion Hb; subst. discriminate.
  - vm_compute in Hd. inversion Hd; subst; clear Hd.
    vm_compute in Ha. inversion Ha; subst; clear Ha.
    inversion Hw' as [st0|n1 st0 fid st1 st4 st5 e Hd _ Ha _]; subst.
    + vm_compute in Hb. inversion Hb; subst. discriminate.
    + vm_compute in Hd. inversion Hd; subst; clear Hd.
      vm_compute in Ha. discriminate.
Defined.

Lemma failed_block_ends_before_trailer_witness :
  lz4_record sample_library corrupt_then_valid sample_instream
             sample_outstream 0
             {| position := 2; logentries := 0; emitted := [] |} =
  (Ok Continue,
   {| position := 21; logentries := 0;
      emitted := [Printed (SkippedEntry 0 "tlog.1706323123.log.gz")] |}) /\
  lz4_record sample_library corrupt_then_valid sample_zst_reader
             sample_outstream 0
             {| position := 2; logentries := 0; emitted := [] |} =
  (Raise AttributeError,
   {| position := 21; logentries := 0; emitted := [] |}).
Proof.
  split.
  - exact (@failed_block_ends_before_trailer sample_library
             corrupt_then_valid sample_instream sample_outstream 0
             {| position := 2; logentries := 0; emitted := [] |}
             {| position := 21; logentries := 0; emitted := [] |}
             {| part_entrycount := 1; part_lentrycounts := 2;
                part_ldecompressed := 1; part_entrieslengths := [x00; x01];
                part_compressed := [x10] |}
             eq_refl eq_refl).
  - exact (@failed_block_ends_before_trailer sample_library
             corrupt_then_valid sample_zst_reader sample_outstream 0
             {| position := 2; logentries := 0; emitted := [] |}
             {| position := 21; logentries := 0; emitted := [] |}
             {| part_entrycount := 1; part_lentrycounts := 2;
                part_ldecompressed := 1; part_entrieslengths := [x00; x01];
                part_compressed := [x10] |}
             eq_refl eq_refl).
Defined.

Lemma decoded_block_skips_trailer_witness :
  lz4_record sample_library two_entry_block sample_instream
             sample_outstream 0
             {| position := 2; logentries := 0; emitted := [] |} =
  (Ok Continue,
   {| position := 61; logentries := 2;
      emitted :=
        [WroteBytes (list_byte_of_string "abcd" ++ [x0a]);
         WroteBytes (list_byte_of_string "123456" ++ [x0a])] |}).
Proof.
  exact (@decoded_block_skips_trailer sample_library two_entry_block
           sample_instream sample_outstream 0
           {| position := 2; logentries := 0; emitted := [] |}
           {| position := 57; logentries := 0; emitted := [] |}
           {| part_entrycount := 2; part_lentrycounts := 4;
              part_ldecompressed := 10;
              part_entrieslengths := [x00; x04; x00; x06];
              part_compressed := xa0 :: list_byte_of_string "abcd123456" |}
           (list_byte_of_string "abcd123456")
           eq_refl eq_refl eq_refl
           [list_byte_of_string "abcd"; list_byte_of_string "123456"]
           eq_refl).
Defined.

Lemma tlc_record_writes_entries_witness :
  tlc_record sample_library 5 two_entry_envelope sample_instream
             sample_outstream 0
             {| position := 2; logentries := 0; emitted := [] |} =
  (Ok Continue,
   {| position := 134; logentries := 2;
      emitted :=
        [WroteBytes (list_byte_of_string "date=2024-02-14 msg=up" ++ [x0a]);
         WroteBytes (list_byte_of_string "date=2024-02-14 msg=down"
                       ++ [x0a])] |}).
Proof.
  refine (@tlc_record_writes_entries sample_library 5 two_entry_envelope
            sample_instream sample_outstream 0
            {| position := 2; logentries := 0; emitted := [] |}
            two_logs [] _ eq_refl eq_refl).
  discriminate.
Defined.

(** ** Length tables that do not fit the buffer *)

Lemma firstn_plus {A : Type} (n m : nat) (l : list A) :
  firstn (n + m) l = firstn n l ++ firstn m (skipn n l).
Proof.
  revert l. induction n as [|n IH]; intros [|x l]; simpl;
    try reflexivity.
  - now rewrite firstn_nil.
  - now rewrite IH.
Qed.

(** A slice that starts at [ptr] and has a length [l], neither negative,
    is the first [l] elements behind the first [ptr], wherever the list
    ends. *)
Lemma py_slice_from {A : Type} (buffer : list A) (ptr l : Z) :
  0 <= ptr -> 0 <= l ->
  py_slice buffer ptr (ptr + l) =
  firstn (Z.to_nat l) (skipn (Z.to_nat ptr) buffer).
Proof.
  intros Hptr Hl. unfold py_slice, clip.
  destruct (ptr <? 0) eqn:E1; [apply Z.ltb_lt in E1; lia|].
  destruct (ptr + l <? 0) eqn:E2; [apply Z.ltb_lt in E2; lia|].
  destruct (Z.le_gt_cases ptr (len buffer)) as [Hin|Hout].
  - rewrite (Z.min_l ptr) by lia.
    destruct (Z.le_gt_cases (ptr + l) (len buffer)) as [Hfit|Hover].
    + rewrite Z.min_l by lia. f_equal. lia.
    + rewrite Z.min_r by lia.
      rewrite !firstn_all2; try reflexivity;
        rewrite length_skipn; unfold len in *; lia.
  - rewrite !Z.min_r by lia.
    rewrite Z.sub_diag. simpl.
    rewrite (skipn_all2 buffer) by (unfold len in *; lia).
    now rewrite firstn_nil.
Qed.

Lemma slice_entries_chop_any (entrieslengths decompressed : bytes)
    (ks : list nat) (ptr : Z) :
  0 <= ptr ->
  slice_entries (map (fun k => 2 * Z.of_nat k) ks)
                entrieslengths decompressed ptr =
  chop (map (fun k => int_from_bytes_big
                        (py_slice entrieslengths (2 * Z.of_nat k)
                                  (2 * Z.of_nat k + 2))) ks)
       (skipn (Z.to_nat ptr) decompressed).
Proof.
  revert ptr. induction ks as [|k ks IH]; intros ptr Hptr; [reflexivity|].
  cbn [map slice_entries chop].
  set (l := int_from_bytes_big
              (py_slice entrieslengths (2 * Z.of_nat k)
                        (2 * Z.of_nat k + 2))).
  assert (Hl : 0 <= l) by apply int_from_bytes_big_nonneg.
  rewrite py_slice_from by lia. f_equal.
  rewrite IH by lia. rewrite skipn_skipn. f_equal. f_equal. lia.
Qed.

Lemma chop_concat (lengths : list Z) (buffer : bytes) :
  Forall (fun l => 0 <= l) lengths ->
  List.concat (chop lengths buffer) =
    firstn (Z.to_nat (total lengths)) buffer /\
  List.length (chop lengths buffer) = List.length lengths.
Proof.
  intros Hpos. revert buffer.
  induction Hpos as [|l more Hl Hmore IH]; intros buffer.
  - split; reflexivity.
  - change (total (l :: more)) with (l + total more).
    cbn [chop List.concat List.length].
    pose proof (total_nonneg Hmore) as Hrest.
    destruct (IH (skipn (Z.to_nat l) buffer)) as [Hc Hn].
    rewrite Hc, Hn. split; [|reflexivity].
    rewrite Z2Nat.inj_add by lia. now rewrite firstn_plus.
Qed.

(** For an entry count N above 1 the decoder never checks the length
    table against the buffer: it always builds N entries, the consecutive
    slices the table describes, cut short or empty where the buffer ends;
    their concatenation is the start of the buffer up to the sum of the
    table, so what lies behind that sum is dropped. *)
Theorem lz4_entries_cut_prefix :
  forall (entrycount : Z) (entrieslengths decompressed : bytes),
    1 < entrycount ->
    lz4_entries entrycount (entrycount * 2) entrieslengths decompressed =
      chop (length_table entrycount entrieslengths) decompressed /\
    len (lz4_entries entrycount (entrycount * 2)
                     entrieslengths decompressed) = entrycount /\
    List.concat (lz4_entries entrycount (entrycount * 2)
                             entrieslengths decompressed) =
      bytes_at decompressed 0 (total (length_table entrycount entrieslengths)).
Proof.
  intros entrycount entrieslengths decompressed Hmany.
  assert (Hcut :
    lz4_entries entrycount (entrycount * 2) entrieslengths decompressed =
    chop (length_table entrycount entrieslengths) decompressed).
  { unfold lz4_entries.
    destruct (1 <? entrycount) eqn:E; [|apply Z.ltb_ge in E; lia].
    rewrite range2_double by lia.
    rewrite slice_entries_chop_any by lia. reflexivity. }
  destruct (chop_concat decompressed
              (length_table_nonneg entrycount entrieslengths)) as [Hc Hn].
  rewrite Hcut. repeat split.
  - unfold len. rewrite Hn. unfold length_table.
    rewrite length_map, length_seq. lia.
  - exact Hc.
Qed.

(** A table of 3 and 9 over a buffer of ten bytes: the second entry is cut
    short; a table of 2 and 3: the last five bytes are dropped. *)
Lemma lz4_entries_cut_prefix_witness :
  lz4_entries 2 4 [x00; x03; x00; x09] (list_byte_of_string "abcd123456") =
    [list_byte_of_string "abc"; list_byte_of_string "d123456"] /\
  List.concat (lz4_entries 2 4 [x00; x02; x00; x03]
                           (list_byte_of_string "abcd123456")) =
    list_byte_of_string "abcd1".
Proof.
  split.
  - exact (proj1 (@lz4_entries_cut_prefix 2 [x00; x03; x00; x09]
                    (list_byte_of_string "abcd123456") eq_refl)).
  - exact (proj2 (proj2 (@lz4_entries_cut_prefix 2 [x00; x02; x00; x03]
                           (list_byte_of_string "abcd123456") eq_refl))).
Defined.

(** ** What [split] keeps *)

Lemma starts_with_extend (sep s t : bytes) :
  starts_with sep s = true -> starts_with sep (s ++ t) = true.
Proof.
  revert s. induction sep as [|x sep IH]; intros [|y s] H; simpl in *;
    try reflexivity; try discriminate.
  apply andb_true_iff in H. destruct H as [-> H]. simpl. now apply IH.
Qed.

Lemma occurrences_app_both (sep a t : bytes) :
  (occurrences sep a + occurrences sep t <= occurrences sep (a ++ t))%nat.
Proof.
  induction a as [|x a IH]; simpl; [lia|].
  destruct (starts_with sep (x :: a)) eqn:E.
  - change (x :: a ++ t) with ((x :: a) ++ t).
    rewrite (starts_with_extend _ _ t E). lia.
  - destruct (starts_with sep (x :: a ++ t)); lia.
Qed.

Lemma bytes_find_Some (sep s : bytes) (j : nat) :
  sep <> [] ->
  bytes_find sep s = Some j ->
  exists a b, s = a ++ sep ++ b /\ List.length a = j /\
              occurrences sep (a ++ sep ++ b) = occurrences sep (sep ++ b).
Proof.
  intros Hsep. revert j. induction s as [|x s IH]; intros j H.
  - simpl in H. destruct sep; [contradiction|discriminate].
  - simpl in H. destruct (starts_with sep (x :: s)) eqn:E.
    + inversion H; subst. apply starts_with_true in E. destruct E as [b Hb].
      exists [], b. repeat split. exact Hb.
    + destruct (bytes_find sep s) as [j'|] eqn:Hf; [|discriminate].
      inversion H; subst.
      destruct (IH j' eq_refl) as (a & b & Heq & Hlen & Hocc).
      exists (x :: a), b. repeat split.
      * simpl. congruence.
      * simpl. congruence.
      * simpl. rewrite <- Heq, E. rewrite Heq. exact Hocc.
Qed.

Lemma bytes_find_None (sep s : bytes) :
  bytes_find sep s = None -> occurrences sep s = O.
Proof.
  induction s as [|x s IH]; simpl; intros H; [reflexivity|].
  destruct (starts_with sep (x :: s)); [discriminate|].
  destruct (bytes_find sep s); [discriminate|]. now rewrite IH.
Qed.

Lemma py_join_cons (sep piece x : bytes) (l : list bytes) :
  py_join sep (piece :: x :: l) = piece ++ sep ++ py_join sep (x :: l).
Proof. reflexivity. Qed.

Lemma split_upto_keeps (sep : bytes) (cuts : nat) :
  sep <> [] ->
  forall s,
    (List.length s <= cuts)%nat ->
    py_join sep (split_upto cuts sep s) = s /\
    Forall (fun piece => occurrences sep piece = O) (split_upto cuts sep s).
Proof.
  intros Hsep. induction cuts as [|cuts IH]; intros s Hlen.
  - destruct s; [|simpl in Hlen; lia]. split; [reflexivity|].
    constructor; [reflexivity|constructor].
  - cbn [split_upto]. destruct (bytes_find sep s) as [j|] eqn:Hf.
    + destruct (bytes_find_Some _ Hsep Hf) as (a & b & -> & Hj & Hocc).
      subst j.
      rewrite firstn_app, Nat.sub_diag, firstn_all. cbn [firstn].
      rewrite app_nil_r.
      assert (Hskip : skipn (List.length a + List.length sep)
                            (a ++ sep ++ b) = b).
      { rewrite app_assoc, skipn_app.
        rewrite length_app, Nat.sub_diag. simpl.
        rewrite skipn_all2 by (rewrite length_app; lia). reflexivity. }
      rewrite Hskip.
      assert (Hb : (List.length b <= cuts)%nat).
      { rewrite !length_app in Hlen.
        destruct sep; [contradiction|simpl in Hlen; lia]. }
      destruct (IH b Hb) as [Hjoin Hfree].
      destruct (split_upto_cons cuts sep b) as (x & l & Hx).
      rewrite Hx in *. rewrite py_join_cons, Hjoin.
      split; [reflexivity|]. constructor; [|exact Hfree].
      pose proof (occurrences_app_both sep a (sep ++ b)). lia.
    + split; [reflexivity|].
      constructor; [now apply bytes_find_None|constructor].
Qed.

Lemma py_split_pieces (sep : bytes) :
  sep <> [] ->
  forall s,
    py_join sep (py_split sep s) = s /\
    Forall (fun piece => occurrences sep piece = O) (py_split sep s).
Proof.
  intros Hsep s. unfold py_split.
  apply split_upto_keeps; [exact Hsep|apply Nat.le_refl].
Qed.

(** Splitting loses nothing and leaves no separator behind: joining the
    pieces of [s.split(sep)] with [sep] gives [s] back, and [sep] occurs in
    none of the pieces. *)
Theorem py_split_join :
  forall sep s : bytes,
    sep <> [] ->
    py_join sep (py_split sep s) = s /\
    Forall (fun piece => occurrences sep piece = O) (py_split sep s).
Proof.
  intros sep s Hsep. now apply py_split_pieces.
Qed.

Lemma py_split_join_witness :
  py_join [x00] (py_split [x00] [x61; x00; x00; x62; x00]) =
    [x61; x00; x00; x62; x00] /\
  py_split [x00] [x61; x00; x00; x62; x00] = [[x61]; []; [x62]; []].
Proof.
  split; [|reflexivity].
  refine (proj1 (@py_split_join [x00] [x61; x00; x00; x62; x00] _)).
  discriminate.
Defined.

(** ** The shape of the entries of a tlc record *)

Lemma collect_entries_In (raw_entries : list bytes) (entry : bytes) :
  In entry (collect_entries raw_entries) ->
  exists raw_entry,
    In raw_entry raw_entries /\ tlc_entry raw_entry = Some entry.
Proof.
  induction raw_entries as [|raw more IH]; simpl; [contradiction|].
  destruct (tlc_entry raw) as [e|] eqn:He.
  - intros [<-|Hin]; [exists raw; auto|].
    destruct (IH Hin) as (r & Hr & Hre). exists r. auto.
  - intros Hin. destruct (IH Hin) as (r & Hr & Hre). exists r. auto.
Qed.

Lemma py_join_In (sep : bytes) (pieces : list bytes) (piece : bytes) :
  In piece pieces ->
  exists pre post, py_join sep pieces = pre ++ piece ++ post.
Proof.
  induction pieces as [|p more IH]; [contradiction|].
  intros [->|Hin].
  - destruct more as [|x l].
    + exists [], []. simpl. now rewrite app_nil_r.
    + exists [], (sep ++ py_join sep (x :: l)). reflexivity.
  - destruct more as [|x l]; [contradiction|].
    destruct (IH Hin) as (pre & post & Heq).
    exists (p ++ sep ++ pre), post.
    rewrite py_join_cons, Heq. now rewrite <- !app_assoc.
Qed.

Lemma no_nul_occurrence (s : bytes) :
  occurrences [x00] s = O -> ~ In x00 s.
Proof.
  induction s as [|y s IH]; simpl; intros Hocc Hin; [contradiction|].
  destruct Hin as [Hy|Hin].
  - subst y. simpl in Hocc. discriminate.
  - apply IH; [|exact Hin].
    destruct (Byte.eqb x00 y && true); simpl in Hocc; lia.
Qed.

(** Every entry of a tlc payload starts with the marker [date=], holds the
    marker nowhere else and no 0x00 byte, and is a run of consecutive
    bytes of the payload. *)
Theorem tlc_entries_shape :
  forall tlc entry : bytes,
    In entry (tlc_entries tlc) ->
    (exists rest, entry = date_marker ++ rest /\
                  occurrences date_marker entry = 1%nat) /\
    ~ In x00 entry /\
    exists pre post, tlc = pre ++ entry ++ post.
Proof.
  intros tlc entry Hin. unfold tlc_entries in Hin.
  destruct (collect_entries_In _ _ Hin) as (raw & Hraw & He).
  assert (Hnul : [x00] <> []) by discriminate.
  destruct (py_split_pieces Hnul tlc) as [Hjoin Hfree].
  assert (Hrawfree : occurrences [x00] raw = O).
  { rewrite Forall_forall in Hfree. now apply Hfree. }
  unfold tlc_entry in He.
  destruct (py_split_pieces date_marker_nonempty raw) as [Hj Hf].
  destruct (py_split date_marker raw) as [|a [|rest [|x l]]];
    try discriminate.
  injection He as <-.
  cbn [py_join] in Hj.
  assert (Hrest : occurrences date_marker rest = O).
  { rewrite Forall_forall in Hf. apply Hf. right. now left. }
  split; [|split].
  - exists rest. split; [reflexivity|].
    change (occurrences date_marker (date_marker ++ rest) = 1%nat).
    rewrite occurrences_behind_marker, Hrest. reflexivity.
  - change (~ In x00 (date_marker ++ rest)).
    intros Hin0. apply (@no_nul_occurrence raw Hrawfree).
    rewrite <- Hj. apply in_or_app. now right.
  - destruct (py_join_In [x00] _ _ Hraw) as (pre & post & Hpp).
    rewrite Hjoin in Hpp. exists (pre ++ a), post.
    change (tlc = (pre ++ a) ++ (date_marker ++ rest) ++ post).
    rewrite Hpp, <- Hj. now rewrite <- !app_assoc.
Qed.

Lemma tlc_entries_shape_witness :
  In (list_byte_of_string "date=2024-02-14 msg=up") (tlc_entries two_logs) /\
  ~ In x00 (list_byte_of_string "date=2024-02-14 msg=up").
Proof.
  assert (Hin : In (list_byte_of_string "date=2024-02-14 msg=up")
                   (tlc_entries two_logs)) by (left; reflexivity).
  split; [exact Hin|].
  exact (proj1 (proj2 (@tlc_entries_shape two_logs _ Hin))).
Defined.

(** ** End of stream and padding *)

Section ScanEnds.

Variable L : library.
Variable fuel : nat.
Variable data : bytes.
Variable instream : reader.
Variable sourcefile : string.
Variable outstream : fileobj.

Local Abbreviation iteration :=
  (scan_iteration L fuel data instream sourcefile outstream).
Local Abbreviation reaches :=
  (scan_reaches L fuel data instream sourcefile outstream).

Lemma tag_at_end (p : Z) : len data <= p -> tag_at data p = [].
Proof.
  intros H. unfold tag_at.
  rewrite skipn_all2 by (unfold len in H; lia). reflexivity.
Qed.

Lemma scan_iteration_eof (s : scan_state) :
  tag_at data (position s) = [] ->
  iteration s =
  (Ok Break,
   {| position := position s; logentries := logentries s;
      emitted := emitted s ++
        output_info (DoneFile sourcefile (logentries s)) outstream false |}).
Proof.
  intros Htag. unfold scan_iteration, bind, tell. rewrite read_tag, Htag.
  simpl. unfold len. simpl. rewrite Z.add_0_r. reflexivity.
Qed.

Lemma scan_iteration_padding (s : scan_state) :
  tag_at data (position s) = [x00; x00] \/ tag_at data (position s) = [x00] ->
  iteration s =
  (Ok Continue,
   {| position := position s + len (tag_at data (position s));
      logentries := logentries s; emitted := emitted s |}).
Proof.
  intros Htag. unfold scan_iteration, bind, tell. rewrite read_tag.
  destruct Htag as [-> | ->]; reflexivity.
Qed.

Lemma scan_iteration_magic (s : scan_state) :
  tag_at data (position s) = magic ->
  iteration s =
  lz4_record L data instream outstream (position s)
    {| position := position s + 2; logentries := logentries s;
       emitted := emitted s |}.
Proof.
  intros Htag. unfold scan_iteration, bind, tell. rewrite read_tag, Htag.
  reflexivity.
Qed.

Lemma reaches_app n m s1 s2 s3 :
  reaches n s1 s2 -> reaches m s2 s3 -> reaches (n + m) s1 s3.
Proof.
  induction 1 as [s|n s sa sb Hit Hr IH]; intros Hm; simpl; [assumption|].
  eapply reach_round; [exact Hit|apply IH; exact Hm].
Qed.

(** Zero bytes are skipped two at a time: [2 * k] of them in front of
    anything take [k] passes and emit nothing. *)
Theorem even_padding_is_skipped :
  forall (k : nat) (s : scan_state) (rest : bytes),
    0 <= position s ->
    skipn (Z.to_nat (position s)) data = repeat x00 (2 * k) ++ rest ->
    reaches k s
      {| position := position s + 2 * Z.of_nat k;
         logentries := logentries s; emitted := emitted s |}.
Proof.
  induction k as [|k IH]; intros s rest Hpos Hdata.
  - replace (position s + 2 * Z.of_nat 0) with (position s) by lia.
    destruct s. apply reach_here.
  - replace (2 * S k)%nat with (S (S (2 * k))) in Hdata by lia.
    simpl repeat in Hdata.
    assert (Htag : tag_at data (position s) = [x00; x00]).
    { unfold tag_at. rewrite Hdata. reflexivity. }
    eapply reach_round.
    + apply scan_iteration_padding. left. exact Htag.
    + rewrite Htag.
      replace (position s + 2 * Z.of_nat (S k))
        with ((position s + len [x00; x00]) + 2 * Z.of_nat k)
        by (unfold len; simpl List.length; lia).
      apply (IH {| position := position s + len [x00; x00];
                   logentries := logentries s; emitted := emitted s |}
                rest).
      * simpl. unfold len. simpl. lia.
      * simpl position.
        replace (Z.to_nat (position s + len [x00; x00]))
          with (2 + Z.to_nat (position s))%nat
          by (unfold len; simpl List.length; lia).
        rewrite <- skipn_skipn, Hdata. reflexivity.
Qed.

(** At the end of the stream the scan emits its summary, which carries the
    count of log entries, and returns; an empty stream gives the summary
    with count 0. *)
Theorem end_of_stream_ends_scan :
  forall (n : nat) (s : scan_state),
    reaches n scan_initial s ->
    len data <= position s ->
    forall rounds, (n < rounds)%nat ->
      decode_llogv5 L fuel data instream sourcefile outstream rounds =
      (Ok tt,
       {| position := position s; logentries := logentries s;
          emitted := emitted s ++
            [(if is_sys_stdout outstream then Logged else Printed)
               (DoneFile sourcefile (logentries s))] |}).
Proof.
  intros n s Hr Hend rounds Hrounds. unfold decode_llogv5.
  replace rounds with (n + S (rounds - S n))%nat by lia.
  rewrite (scan_loop_reaches Hr). simpl. unfold bind at 1.
  rewrite (@scan_iteration_eof s (@tag_at_end (position s) Hend)).
  unfold ret, output_info. simpl.
  destruct (is_sys_stdout outstream); reflexivity.
Qed.

(** A zero byte in front of a byte that is not zero is no padding: the two
    are read as one tag, and the scan ends there. *)
Theorem odd_padding_ends_scan :
  forall (n : nat) (s : scan_state) (b : byte) (rest : bytes),
    reaches n scan_initial s ->
    skipn (Z.to_nat (position s)) data = x00 :: b :: rest ->
    b <> x00 ->
    forall rounds, (n < rounds)%nat ->
      decode_llogv5 L fuel data instream sourcefile outstream rounds =
      (Ok tt,
       {| position := position s + 2; logentries := logentries s;
          emitted := emitted s ++
            [(if is_sys_stdout outstream then Logged else Printed)
               (UnknownHeader sourcefile [x00; b] (position s))] |}).
Proof.
  intros n s b rest Hr Hdata Hb rounds Hrounds. unfold decode_llogv5.
  assert (Htag : tag_at data (position s) = [x00; b]).
  { unfold tag_at. rewrite Hdata. reflexivity. }
  replace rounds with (n + S (rounds - S n))%nat by lia.
  rewrite (scan_loop_reaches Hr). simpl. unfold bind at 1.
  rewrite (@scan_iteration_unknown L fuel data instream sourcefile outstream
             s); rewrite ?Htag; try discriminate.
  - unfold ret, output_info. simpl.
    destruct (is_sys_stdout outstream); reflexivity.
  - intros H. inversion H. contradiction.
Qed.

(** When the block of an lz4 record does not decompress, the stream has a
    [name] and the trailer is empty, the two zero bytes of the trailer
    length are taken for padding by the next pass, and the scan is back
    behind the record. *)
Theorem failed_block_with_empty_trailer_resumes :
  forall (s s1 : scan_state) (parts : lz4_parts),
    has_name instream = true ->
    tag_at data (position s) = magic ->
    read_lz4_parts data outstream
      {| position := position s + 2; logentries := logentries s;
         emitted := emitted s |} = (Ok parts, s1) ->
    lz4_block_decompress L (part_compressed parts)
                         (part_ldecompressed parts + 1) = None ->
    bytes_at data (position s1) 2 = [x00; x00] ->
    after_trailer data (position s1) = position s1 + 2 /\
    reaches 2 s
      {| position := position s1 + 2; logentries := logentries s1;
         emitted := emitted s1 ++
           output_info (SkippedEntry (position s) (name (as_file instream)))
                       outstream false |}.
Proof.
  intros s s1 parts Hname Htag Hparts Hfail Htrailer. split.
  - unfold after_trailer. rewrite Htrailer.
    change (int_from_bytes_little [x00; x00]) with 0.
    unfold bytes_at, len. simpl firstn. simpl List.length. lia.
  - eapply reach_round.
    + rewrite (@scan_iteration_magic s Htag).
      rewrite (@failed_block_path L data instream outstream (position s)
                 _ s1 parts Hparts Hfail).
      rewrite Hname. reflexivity.
    + eapply reach_round; [|apply reach_here].
      rewrite scan_iteration_padding.
      * simpl position. change (tag_at data (position s1))
          with (bytes_at data (position s1) 2).
        rewrite Htrailer. reflexivity.
      * left. exact Htrailer.
Qed.

End ScanEnds.

(** ** Triples for the scanner *)

Section Triples.

Variable Inv : scan_state -> Prop.

Lemma triple_ret {A : Type} (P : scan_state -> Prop) (a : A) :
  triple Inv P (ret a) P.
Proof. intros s r s' HP H. inversion H; subst. exact HP. Qed.

Lemma triple_bind {A B : Type} (P Q R : scan_state -> Prop)
    (m : M A) (k : A -> M B) :
  triple Inv P m Q -> (forall a, triple Inv Q (k a) R) ->
  triple Inv P (bind m k) R.
Proof.
  intros Hm Hk s r s' HP H. unfold bind in H.
  destruct (m s) as [[a|e|] s1] eqn:Hms.
  - apply (Hk a s1 r s'); [|exact H]. exact (Hm s (Ok a) s1 HP Hms).
  - inversion H; subst. exact (Hm s (Raise e) s' HP Hms).
  - inversion H; subst. exact (Hm s OutOfFuel s' HP Hms).
Qed.

Lemma triple_try_except {A : Type} (P Q : scan_state -> Prop)
    (m handler : M A) :
  triple Inv P m Q -> triple Inv Inv handler Q ->
  triple Inv P (try_except m handler) Q.
Proof.
  intros Hm Hh s r s' HP H. unfold try_except in H.
  destruct (m s) as [[a|e|] s1] eqn:Hms.
  - inversion H; subst. exact (Hm s (Ok a) s' HP Hms).
  - apply (Hh s1 r s'); [|exact H]. exact (Hm s (Raise e) s1 HP Hms).
  - inversion H; subst. exact (Hm s OutOfFuel s' HP Hms).
Qed.

Lemma triple_lift {A : Type} (r : res A) : triple Inv Inv (lift r) Inv.
Proof.
  intros s r' s' HP H. inversion H; subst. destruct r'; exact HP.
Qed.

Lemma triple_get_logentries (P : scan_state -> Prop) :
  triple Inv P get_logentries P.
Proof. intros s r s' HP H. inversion H; subst. exact HP. Qed.

Lemma triple_tell (P : scan_state -> Prop) : triple Inv P tell P.
Proof. intros s r s' HP H. inversion H; subst. exact HP. Qed.

End Triples.

Lemma written_app (a b : list event) :
  written (a ++ b) = written a + written b.
Proof.
  unfold written, len. rewrite filter_app, length_app. lia.
Qed.

Lemma written_output_info (m : message) (o : fileobj) (typedebug : bool) :
  written (output_info m o typedebug) = 0.
Proof.
  unfold output_info.
  destruct (typedebug && negb debug); [reflexivity|].
  destruct (is_sys_stdout o); reflexivity.
Qed.

Lemma written_bytes (entries : list bytes) :
  written (map (fun entry => WroteBytes (entry ++ [x0a])) entries)
  = len entries.
Proof.
  unfold written, len. induction entries as [|e more IH]; [reflexivity|].
  simpl. simpl in IH. lia.
Qed.

Section Counting.

Variable L : library.
Variable fuel : nat.
Variable data : bytes.
Variable instream : reader.
Variable sourcefile : string.
Variable outstream : fileobj.

Hypothesis not_stdout : is_sys_stdout outstream = false.

Local Abbreviation tr := (triple (counted 0)).

Lemma counted_emit_info (d : Z) (m : message) (o : fileobj) (dbg : bool) :
  tr (counted d) (emit (output_info m o dbg)) (counted d).
Proof.
  intros s r s' HP H. inversion H; subst. unfold counted in *. simpl.
  rewrite written_app, written_output_info. lia.
Qed.

Lemma counted_count_logs (k : Z) :
  tr (counted 0) (count_logs k) (counted k).
Proof.
  intros s r s' HP H. inversion H; subst. unfold counted in *. simpl. lia.
Qed.

Lemma counted_read (n : Z) : tr (counted 0) (read data n) (counted 0).
Proof.
  intros s r s' HP H. unfold read in H.
  destruct (n <? -1); inversion H; subst; exact HP.
Qed.

Lemma counted_output_logs (entries : list bytes) :
  tr (counted (len entries)) (output_logs L outstream entries) (counted 0).
Proof.
  intros s r s' HP H. rewrite (@output_logs_bytes L outstream _ _ not_stdout) in H.
  inversion H; subst. unfold counted in *. simpl.
  rewrite written_app, written_bytes. lia.
Qed.

Lemma counted_call_parse_tlc (body : bytes) :
  tr (counted 0) (call_parse_tlc L fuel instream outstream body) (counted 0).
Proof.
  intros s r s' HP H. unfold call_parse_tlc in H.
  pose proof (parse_tlc_emits L fuel body outstream (as_file instream)) as Hev.
  destruct (parse_tlc L fuel body outstream (as_file instream)) as [r0 evs].
  simpl in Hev. inversion H; subst.
  assert (Hw : written evs = 0).
  { destruct Hev as [->|[->| ->]];
      [reflexivity|apply written_output_info..]. }
  assert (Hc : counted 0 {| position := position s;
                            logentries := logentries s;
                            emitted := emitted s ++ evs |}).
  { unfold counted in *. simpl. rewrite written_app. lia. }
  destruct r; exact Hc.
Qed.

Ltac counted_steps :=
  repeat first
    [ eapply triple_bind; [|intros ?]
    | eapply triple_try_except
    | apply counted_emit_info
    | apply counted_count_logs
    | apply counted_read
    | apply counted_output_logs
    | apply counted_call_parse_tlc
    | apply triple_lift
    | apply triple_get_logentries
    | apply triple_ret
    | match goal with
      | |- triple _ _ (if ?c then _ else _) _ => destruct c
      end ].

Lemma counted_lz4_record (file_ptr_pos : Z) :
  tr (counted 0) (lz4_record L data instream outstream file_ptr_pos)
     (counted 0).
Proof.
  unfold lz4_record, read_lz4_parts, emit_lz4_entries, skip_lz4_trailer.
  counted_steps.
Qed.

Lemma counted_tlc_record (file_ptr_pos : Z) :
  tr (counted 0) (tlc_record L fuel data instream outstream file_ptr_pos)
     (counted 0).
Proof.
  unfold tlc_record. counted_steps.
Qed.

Lemma counted_scan_iteration :
  tr (counted 0) (scan_iteration L fuel data instream sourcefile outstream)
     (counted 0).
Proof.
  unfold scan_iteration, tell.
  eapply triple_bind; [apply triple_tell|intros p].
  eapply triple_bind; [apply counted_read|intros logtype].
  destruct (bytes_eqb logtype magic); [apply counted_lz4_record|].
  destruct (bytes_eqb logtype tlc_magic); [apply counted_tlc_record|].
  counted_steps.
Qed.

Lemma counted_scan_loop (rounds : nat) :
  tr (counted 0) (scan_loop L fuel data instream sourcefile outstream rounds)
     (counted 0).
Proof.
  induction rounds as [|rounds IH]; simpl.
  - apply triple_lift.
  - eapply triple_bind; [apply counted_scan_iteration|].
    intros [|]; [exact IH|apply triple_ret].
Qed.

(** Written to a stream that is not [sys.stdout], the counter of log
    entries is at every end of the scan (return, exception, bound) the
    number of entries written: the summary at the end of the stream
    reports exactly what was written. *)
Theorem logentries_counts_written :
  forall rounds,
    logentries
      (snd (decode_llogv5 L fuel data instream sourcefile outstream rounds))
    = written
        (emitted
           (snd (decode_llogv5 L fuel data instream sourcefile outstream
                               rounds))).
Proof.
  intros rounds. unfold decode_llogv5.
  destruct (scan_loop L fuel data instream sourcefile outstream rounds
                      scan_initial) as [r s'] eqn:H.
  assert (H0 : counted 0 scan_initial) by reflexivity.
  pose proof (@counted_scan_loop rounds scan_initial r s' H0 H) as Hc.
  simpl. unfold counted in Hc. destruct r; lia.
Qed.

Lemma counted_reaches (n : nat) (s s' : scan_state) :
  scan_reaches L fuel data instream sourcefile outstream n s s' ->
  counted 0 s -> counted 0 s'.
Proof.
  induction 1 as [s|n s s1 s2 Hit Hr IH]; intros Hc; [exact Hc|].
  apply IH. exact (@counted_scan_iteration s (Ok Continue) s1 Hc Hit).
Qed.

(** Written to a stream that is not [sys.stdout], the summary printed at
    the end of the stream carries the number of entries written. *)
Theorem summary_reports_entries_written :
  forall (n : nat) (s : scan_state),
    scan_reaches L fuel data instream sourcefile outstream n scan_initial s ->
    len data <= position s ->
    forall rounds, (n < rounds)%nat ->
      decode_llogv5 L fuel data instream sourcefile outstream rounds =
      (Ok tt,
       {| position := position s; logentries := written (emitted s);
          emitted := emitted s ++
            [Printed (DoneFile sourcefile (written (emitted s)))] |}).
Proof.
  intros n s Hr Hend rounds Hrounds.
  assert (Hc : logentries s = written (emitted s)).
  { pose proof (@counted_reaches n scan_initial s Hr eq_refl) as Hc.
    unfold counted in Hc. lia. }
  unfold decode_llogv5.
  replace rounds with (n + S (rounds - S n))%nat by lia.
  rewrite (@scan_loop_reaches L fuel data instream sourcefile outstream
             n scan_initial s Hr).
  simpl. unfold bind at 1.
  rewrite (@scan_iteration_eof L fuel data instream sourcefile outstream s
             (@tag_at_end data (position s) Hend)).
  unfold ret, output_info. simpl. rewrite not_stdout, Hc. reflexivity.
Qed.

End Counting.

(** ** Where the events of a run go *)

Lemma process_file_emitted (L : library) (fuel : nat) (data : bytes)
    (instream : reader) (sourcefile : string) (outstream : fileobj)
    (rounds : nat) :
  let decoded :=
    emitted
      (snd (decode_llogv5 L fuel data instream sourcefile outstream rounds)) in
  let skipped := output_info (SkippedFile sourcefile) outstream false in
  let processed :=
    emitted
      (snd (process_file L fuel data instream sourcefile outstream rounds)) in
  processed = decoded \/ processed = decoded ++ skipped \/
  processed = skipped.
Proof.
  unfold process_file.
  destruct (endswith sourcefile ".gz" || endswith sourcefile ".zst");
    [|right; right; reflexivity].
  destruct (decode_llogv5 L fuel data instream sourcefile outstream rounds)
    as [[u|x|] s]; simpl; auto.
Qed.

Section Channels.

Variable L : library.
Variable fuel : nat.
Variable data : bytes.
Variable instream : reader.
Variable sourcefile : string.
Variable outstream : fileobj.
Variable allowed : event -> bool.

Hypothesis allowed_info :
  forall (m : message) (typedebug : bool),
    typedebug = true \/ is_debug m = false ->
    forallb allowed (output_info m outstream typedebug) = true.

Hypothesis allowed_tlc_error :
  forall (offset : Z) (stream_name : string),
    forallb allowed
      (output_info (TlcUndecodable offset stream_name) (as_file instream)
                   false) = true
    /\
    forallb allowed
      (output_info (SkippedEntry offset stream_name) (as_file instream)
                   false) = true.

Hypothesis allowed_entry :
  forall entry : bytes,
    if is_sys_stdout outstream then
      forall text, allowed (WroteText text) = true
    else allowed (WroteBytes (entry ++ [x0a])) = true.

Local Abbreviation ch := (triple (all_events allowed)).
Local Abbreviation ok := (all_events allowed).

Lemma channel_emit (evs : list event) :
  forallb allowed evs = true -> ch ok (emit evs) ok.
Proof.
  intros Hevs s r s' HP H. inversion H; subst. unfold all_events in *.
  simpl. rewrite forallb_app, HP, Hevs. reflexivity.
Qed.

Lemma channel_count_logs (k : Z) : ch ok (count_logs k) ok.
Proof. intros s r s' HP H. inversion H; subst. exact HP. Qed.

Lemma channel_read (n : Z) : ch ok (read data n) ok.
Proof.
  intros s r s' HP H. unfold read in H.
  destruct (n <? -1); inversion H; subst; exact HP.
Qed.

Lemma channel_output_logs (entries : list bytes) :
  ch ok (output_logs L outstream entries) ok.
Proof.
  induction entries as [|entry more IH]; simpl.
  - apply triple_ret.
  - eapply triple_bind; [|intros ?; exact IH].
    pose proof (allowed_entry entry) as Hentry.
    destruct (is_sys_stdout outstream).
    + destruct (bytes_decode L entry) as [text|].
      * apply channel_emit. simpl. now rewrite Hentry.
      * apply triple_lift.
    + apply channel_emit. simpl. now rewrite Hentry.
Qed.

Lemma channel_call_parse_tlc (body : bytes) :
  ch ok (call_parse_tlc L fuel instream outstream body) ok.
Proof.
  intros s r s' HP H. unfold call_parse_tlc in H.
  pose proof (parse_tlc_emits L fuel body outstream (as_file instream)) as Hev.
  destruct (parse_tlc L fuel body outstream (as_file instream)) as [r0 evs].
  simpl in Hev. inversion H; subst.
  assert (Hevs : forallb allowed evs = true).
  { destruct Hev as [->|[->| ->]];
      [reflexivity|apply allowed_tlc_error..]. }
  assert (Hc : ok {| position := position s; logentries := logentries s;
                     emitted := emitted s ++ evs |}).
  { unfold all_events in *. simpl. rewrite forallb_app, HP, Hevs.
    reflexivity. }
  destruct r; exact Hc.
Qed.

Ltac channel_steps :=
  repeat first
    [ eapply triple_bind; [|intros ?]
    | eapply triple_try_except
    | apply channel_emit; apply allowed_info;
      first [left; reflexivity | right; reflexivity]
    | apply channel_count_logs
    | apply channel_read
    | apply channel_output_logs
    | apply channel_call_parse_tlc
    | apply triple_lift
    | apply triple_get_logentries
    | apply triple_tell
    | apply triple_ret
    | match goal with
      | |- triple _ _ (if ?c then _ else _) _ => destruct c
      end ].

Lemma channel_scan_iteration :
  ch ok (scan_iteration L fuel data instream sourcefile outstream) ok.
Proof.
  unfold scan_iteration.
  eapply triple_bind; [apply triple_tell|intros p].
  eapply triple_bind; [apply channel_read|intros logtype].
  destruct (bytes_eqb logtype magic).
  { unfold lz4_record, read_lz4_parts, emit_lz4_entries, skip_lz4_trailer.
    channel_steps. }
  destruct (bytes_eqb logtype tlc_magic).
  { unfold tlc_record. channel_steps. }
  channel_steps.
Qed.

Lemma channel_scan_loop (rounds : nat) :
  ch ok (scan_loop L fuel data instream sourcefile outstream rounds) ok.
Proof.
  induction rounds as [|rounds IH]; simpl.
  - apply triple_lift.
  - eapply triple_bind; [apply channel_scan_iteration|].
    intros [|]; [exact IH|apply triple_ret].
Qed.

Lemma channel_process_file (rounds : nat) :
  forallb allowed
    (emitted
       (snd (process_file L fuel data instream sourcefile outstream rounds)))
  = true.
Proof.
  assert (Hd : forallb allowed
                 (emitted (snd (decode_llogv5 L fuel data instream sourcefile
                                              outstream rounds))) = true).
  { unfold decode_llogv5.
    destruct (scan_loop L fuel data instream sourcefile outstream rounds
                        scan_initial) as [r s'] eqn:H.
    assert (H0 : ok scan_initial) by reflexivity.
    pose proof (@channel_scan_loop rounds scan_initial r s' H0 H) as Hc.
    simpl. destruct r; exact Hc. }
  assert (Hs : forallb allowed
                 (output_info (SkippedFile sourcefile) outstream false)
               = true).
  { apply allowed_info. right. reflexivity. }
  destruct (process_file_emitted L fuel data instream sourcefile outstream
                                 rounds) as [->|[->| ->]];
    rewrite ?forallb_app, ?Hd, ?Hs; reflexivity.
Qed.

End Channels.

(** Decoding a directory, where neither stream is [sys.stdout]: whatever
    the file holds and however the run ends, it prints messages that are no
    debug messages and writes entries as bytes; nothing goes to the log
    file, which this mode never opens. *)
Theorem batch_run_prints_and_writes_bytes :
  forall (L : library) (fuel : nat) (data : bytes) (instream : reader)
         (sourcefile : string) (outstream : fileobj) (rounds : nat),
    is_sys_stdout outstream = false ->
    is_sys_stdout (as_file instream) = false ->
    forallb batch_event
      (emitted
         (snd (process_file L fuel data instream sourcefile outstream
                            rounds))) = true.
Proof.
  intros L fuel data instream sourcefile outstream rounds Hout Hin.
  apply channel_process_file.
  - intros m typedebug H. unfold output_info. rewrite Hout.
    destruct H as [-> | H]; [reflexivity|].
    destruct (typedebug && negb debug); [reflexivity|].
    simpl. now rewrite H.
  - intros offset stream_name. unfold output_info. rewrite Hin.
    split; reflexivity.
  - intros entry. rewrite Hout. reflexivity.
Qed.

(** Decoding a single file to [sys.stdout]: entries are written as text and
    messages go to the log file, but for the two error messages of
    [parse_tlc], which are printed among the entries. *)
Theorem single_file_run_events :
  forall (L : library) (fuel : nat) (data : bytes) (instream : reader)
         (sourcefile : string) (outstream : fileobj) (rounds : nat),
    is_sys_stdout outstream = true ->
    is_sys_stdout (as_file instream) = false ->
    forallb single_file_event
      (emitted
         (snd (process_file L fuel data instream sourcefile outstream
                            rounds))) = true.
Proof.
  intros L fuel data instream sourcefile outstream rounds Hout Hin.
  apply channel_process_file.
  - intros m typedebug H. unfold output_info. rewrite Hout.
    destruct H as [-> | H]; [reflexivity|].
    destruct (typedebug && negb debug); [reflexivity|].
    simpl. now rewrite H.
  - intros offset stream_name. unfold output_info. rewrite Hin.
    split; reflexivity.
  - intros entry. rewrite Hout. reflexivity.
Qed.

(** ** Entries that are no text *)

Section TextEntries.

Variable L : library.
Variable data : bytes.
Variable instream : reader.
Variable outstream : fileobj.

Hypothesis to_stdout : is_sys_stdout outstream = true.

Lemma output_logs_text_raises (before : list bytes) (texts : list string)
    (bad : bytes) (after : list bytes) (s : scan_state) :
  Forall2 (fun entry text => bytes_decode L entry = Some text) before texts ->
  bytes_decode L bad = None ->
  output_logs L outstream (before ++ bad :: after) s =
  (Raise UnicodeDecodeError,
   {| position := position s; logentries := logentries s;
      emitted := emitted s ++
        map (fun text => WroteText (text ++ newline)) texts |}).
Proof.
  intros Hbefore Hbad. revert s.
  induction Hbefore as [|entry text before texts Hentry _ IH]; intros s.
  - simpl. unfold bind. rewrite to_stdout, Hbad. unfold lift.
    rewrite app_nil_r. now destruct s.
  - simpl. unfold bind. rewrite to_stdout, Hentry. unfold emit.
    rewrite IH. simpl. now rewrite <- app_assoc.
Qed.

(** Written to [sys.stdout], an entry of an lz4 record that does not decode
    as text ends the record inside the [try] statement: the entries before
    it are written, every entry of the record is counted, and the trailer
    is not consumed.  On a stream that has a [name] the record is reported
    as one whose decompression failed; on a stream without one the handler
    raises [AttributeError]. *)
Theorem undecodable_entry_reported_as_lz4_failure :
  forall (file_ptr_pos : Z) (s s1 : scan_state) (parts : lz4_parts)
         (decompressed : bytes) (before : list bytes) (texts : list string)
         (bad : bytes) (after : list bytes),
    read_lz4_parts data outstream s = (Ok parts, s1) ->
    lz4_block_decompress L (part_compressed parts)
                         (part_ldecompressed parts + 1) = Some decompressed ->
    lz4_entries (part_entrycount parts) (part_lentrycounts parts)
                (part_entrieslengths parts) decompressed
      = before ++ bad :: after ->
    Forall2 (fun entry text => bytes_decode L entry = Some text)
            before texts ->
    bytes_decode L bad = None ->
    let written_before :=
      emitted s1 ++ map (fun text => WroteText (text ++ newline)) texts in
    lz4_record L data instream outstream file_ptr_pos s =
    if has_name instream then
      (Ok Continue,
       {| position := position s1;
          logentries := logentries s1 + len (before ++ bad :: after);
          emitted :=
            written_before
            ++ [Logged (SkippedEntry file_ptr_pos
                                     (name (as_file instream)))] |})
    else
      (Raise AttributeError,
       {| position := position s1;
          logentries := logentries s1 + len (before ++ bad :: after);
          emitted := written_before |}).
Proof.
  intros fpp s s1 parts decompressed before texts bad after
         Hparts Hdec Hentries Hbefore Hbad written_before.
  unfold lz4_record. unfold bind at 1.
  change (output_info (FoundLz4Entry fpp) outstream true) with (@nil event).
  rewrite emit_nil. unfold bind at 1. rewrite Hparts.
  unfold bind at 1, try_except, emit_lz4_entries.
  unfold bind at 1. unfold bind at 1. unfold lift at 1. rewrite Hdec.
  unfold bind at 1, count_logs. rewrite Hentries.
  rewrite (@output_logs_text_raises before texts bad after _ Hbefore Hbad).
  unfold bind at 2. unfold lift, stream_name.
  destruct (has_name instream); [|reflexivity].
  unfold bind at 1, emit, output_info. simpl. rewrite to_stdout.
  reflexivity.
Qed.

End TextEntries.

(** ** How [parse_tlc] ends *)

Section ParseEnds.

Variable L : library.
Variable body : bytes.
Variables instream outstream : fileobj.

Local Abbreviation walk := (tlc_walk L body instream outstream any_field).

(** The first [zbuf] field the walk reaches with a size recorded and an
    array in hand ends the parse: the buffer is what [lz4.frame] makes of
    that array, or empty, with one message, when the frame is rejected.
    Nothing behind the field is looked at. *)
Theorem zbuf_returns_frame_payload :
  forall (n : nat) (st st1 : tlc_locals) (fieldid : Z) (a : bytes),
    walk n tlc_initial st ->
    decode_field body st = Ok (fieldid, st1) ->
    py_nth tlc_fields fieldid = Ok "zbuf"%string ->
    lunzipped st1 <> 0 ->
    array st1 = Some a ->
    a <> [] ->
    forall fuel, (n < fuel)%nat ->
      parse_tlc L fuel body instream outstream =
      match lz4_frame_decompress L a (lunzipped st1) with
      | Some decompressed => (Ok decompressed, [])
      | None =>
          (Ok [], output_info (SkippedEntry file_ptr_pos (name instream))
                              outstream false)
      end.
Proof.
  intros n st st1 fieldid a Hw Hd Hname Hsize Harr Ha fuel Hfuel.
  assert (Hact : act_on_field L instream outstream fieldid st1 =
                 match lz4_frame_decompress L a (lunzipped st1) with
                 | Some decompressed => Ok (TlcReturn decompressed, [])
                 | None =>
                     Ok (TlcReturn [],
                         output_info
                           (SkippedEntry file_ptr_pos (name instream))
                           outstream false)
                 end).
  { unfold act_on_field. rewrite Hname. simpl.
    destruct (lunzipped st1 =? 0) eqn:E; [apply Z.eqb_eq in E; contradiction|].
    rewrite Harr. simpl.
    destruct (len a =? 0) eqn:E'; [|reflexivity].
    apply Z.eqb_eq in E'. destruct a; [contradiction|].
    unfold len in E'. simpl in E'. lia. }
  destruct (lz4_frame_decompress L a (lunzipped st1)) as [decompressed|].
  - exact (@parse_tlc_returns_after_walk L body instream outstream any_field
             n st fieldid st1 decompressed [] Hw Hd Hact fuel Hfuel).
  - exact (@parse_tlc_returns_after_walk L body instream outstream any_field
             n st fieldid st1 [] _ Hw Hd Hact fuel Hfuel).
Qed.

(** A walk that leaves the body without having met a usable or unusable
    [zbuf] field gives the empty buffer and no message at all; so does the
    empty body. *)
Theorem walk_to_end_gives_empty_buffer :
  forall (n : nat) (st : tlc_locals),
    walk n tlc_initial st ->
    len body <= pointer st ->
    forall fuel, (n < fuel)%nat ->
      parse_tlc L fuel body instream outstream = (Ok [], []).
Proof.
  intros n st Hw Hend fuel Hfuel. unfold parse_tlc.
  replace fuel with (n + S (fuel - S n))%nat by lia.
  rewrite (@tlc_loop_walk L body instream outstream any_field n
             tlc_initial st Hw).
  simpl.
  destruct (pointer st <? len body) eqn:E; [apply Z.ltb_lt in E; lia|].
  reflexivity.
Qed.

(** A field named [unzip-len] or [num-logs] met before any integer field,
    and a [zbuf] field met with a size recorded but before any array field,
    read a local variable that was never assigned: [parse_tlc] raises
    [UnboundLocalError] and emits nothing. *)
Theorem unassigned_local_raises :
  forall (n : nat) (st st1 : tlc_locals) (fieldid : Z),
    walk n tlc_initial st ->
    decode_field body st = Ok (fieldid, st1) ->
    ((py_nth tlc_fields fieldid = Ok "unzip-len"%string \/
      py_nth tlc_fields fieldid = Ok "num-logs"%string) /\
     value st1 = None) \/
    (py_nth tlc_fields fieldid = Ok "zbuf"%string /\
     lunzipped st1 <> 0 /\ array st1 = None) ->
    forall fuel, (n < fuel)%nat ->
      parse_tlc L fuel body instream outstream = (Raise UnboundLocalError, []).
Proof.
  intros n st st1 fieldid Hw Hd Hcase fuel Hfuel.
  apply (@parse_tlc_raises_after_walk L body instream outstream any_field
           n st fieldid st1 UnboundLocalError Hw Hd); [|exact Hfuel].
  unfold act_on_field.
  destruct Hcase as [[[Hname|Hname] Hval]|(Hname & Hsize & Harr)];
    rewrite Hname; simpl.
  - rewrite Hval. reflexivity.
  - rewrite Hval. reflexivity.
  - destruct (lunzipped st1 =? 0) eqn:E; [apply Z.eqb_eq in E; contradiction|].
    rewrite Harr. reflexivity.
Qed.

End ParseEnds.

(** ** Records cut short *)

Lemma py_index_cases (b : bytes) (i : Z) :
  0 <= i ->
  (i < len b /\ exists v, py_index b i = Ok v /\ 0 <= v) \/
  (len b <= i /\ py_index b i = Raise IndexError).
Proof.
  intros Hi. unfold py_index, py_nth.
  destruct (i <? 0) eqn:E; [apply Z.ltb_lt in E; lia|]. rewrite E.
  destruct (nth_error b (Z.to_nat i)) as [x|] eqn:Hn.
  - left. split.
    + assert (Hsome : nth_error b (Z.to_nat i) <> None) by congruence.
      apply nth_error_Some in Hsome. unfold len. lia.
    + exists (byte_val x). split; [reflexivity|].
      pose proof (byte_val_range x). lia.
  - right. split; [|reflexivity].
    apply nth_error_None in Hn. unfold len. lia.
Qed.

(** The header and body of an lz4 record are read without an error exactly
    when six bytes of the header are there; otherwise the access to one of
    [head[0]], [head[3]], [head[4]], [head[5]] raises [IndexError], outside
    every [try] statement of [decode_llogv5].  Shorter lengths, counts and
    bodies than announced are accepted as they come. *)
Theorem lz4_header_needs_six_bytes :
  forall (data : bytes) (outstream : fileobj) (s : scan_state),
    match fst (read_lz4_parts data outstream s) with
    | Ok _ => 6 <= len (bytes_at data (position s) 16)
    | Raise x => x = IndexError /\ len (bytes_at data (position s) 16) < 6
    | OutOfFuel => False
    end.
Proof.
  intros data outstream s. unfold read_lz4_parts.
  unfold bind at 1. rewrite read_inside by lia.
  set (head := bytes_at data (position s) 16).
  unfold bind at 1, lift at 1.
  destruct (@py_index_cases head 0) as [(_ & v0 & -> & H0)|[Hl ->]];
    [lia| |simpl; split; [reflexivity|lia]].
  unfold bind at 1, lift at 1.
  destruct (@py_index_cases head 3) as [(_ & v3 & -> & H3)|[Hl ->]];
    [lia| |simpl; split; [reflexivity|lia]].
  unfold bind at 1, lift at 1.
  destruct (@py_index_cases head 4) as [(_ & v4 & -> & H4)|[Hl ->]];
    [lia| |simpl; split; [reflexivity|lia]].
  unfold bind at 1, lift at 1.
  destruct (@py_index_cases head 5) as [(Hlt & v5 & -> & H5)|[Hl ->]];
    [lia| |simpl; split; [reflexivity|lia]].
  unfold bind at 1.
  change (output_info
            (EntryHoldsLogs (int_from_bytes_big (py_slice head 6 8)))
            outstream true) with (@nil event).
  rewrite emit_nil. unfold bind at 1.
  pose proof (int_from_bytes_big_nonneg (py_slice head 6 8)) as Hc.
  pose proof (int_from_bytes_big_nonneg (py_slice head 8 10)) as Hz.
  rewrite read_inside.
  - simpl. lia.
  - destruct (Z.land (Z.shiftr v0 2) 1 =? 0); lia.
Qed.

Section ShortRecords.

Variable L : library.
Variable fuel : nat.
Variable data : bytes.
Variable instream : reader.
Variable sourcefile : string.
Variable outstream : fileobj.

(** A tlc record whose length field is below 7, as it is when the stream
    ends inside it, asks the stream for fewer than -1 bytes: the pass raises
    [ValueError], outside every [try] statement of [decode_llogv5]. *)
Theorem short_tlc_length_raises :
  forall (file_ptr_pos : Z) (s : scan_state),
    let p1 := position s + len (bytes_at data (position s) 2) in
    let lbytes := bytes_at data p1 4 in
    int_from_bytes_big lbytes < 7 ->
    tlc_record L fuel data instream outstream file_ptr_pos s =
    (Raise ValueError,
     {| position := p1 + len lbytes; logentries := logentries s;
        emitted := emitted s |}).
Proof.
  intros fpp s p1 lbytes Hshort.
  unfold tlc_record. unfold bind at 1.
  change (output_info (FoundTlcEntry fpp) outstream true) with (@nil event).
  rewrite emit_nil. unfold bind at 1. rewrite read_inside by lia.
  unfold bind at 1. rewrite read_inside by lia.
  cbn [position logentries emitted]. fold p1. fold lbytes.
  unfold bind at 1, read.
  destruct (int_from_bytes_big lbytes - 8 <? -1) eqn:E;
    [reflexivity|apply Z.ltb_ge in E; lia].
Qed.

(** A length field of exactly 7 asks for -1 bytes, which is everything
    left of the stream: the rest of the file is parsed as the body of the
    record. *)
Theorem tlc_length_seven_reads_to_end :
  forall (file_ptr_pos : Z) (s : scan_state) (tlc : bytes)
         (evs : list event),
    let p1 := position s + len (bytes_at data (position s) 2) in
    let lbytes := bytes_at data p1 4 in
    let p2 := p1 + len lbytes in
    let body := skipn (Z.to_nat p2) data in
    int_from_bytes_big lbytes = 7 ->
    parse_tlc L fuel body outstream (as_file instream) = (Ok tlc, evs) ->
    is_sys_stdout outstream = false ->
    tlc_record L fuel data instream outstream file_ptr_pos s =
    (Ok Continue,
     {| position := p2 + len body;
        logentries := logentries s + len (tlc_entries tlc);
        emitted := (emitted s ++ evs) ++
          map (fun entry => WroteBytes (entry ++ [x0a])) (tlc_entries tlc) |}).
Proof.
  intros fpp s tlc evs p1 lbytes p2 body Hseven Hparse Hout.
  unfold tlc_record. unfold bind at 1.
  change (output_info (FoundTlcEntry fpp) outstream true) with (@nil event).
  rewrite emit_nil. unfold bind at 1. rewrite read_inside by lia.
  unfold bind at 1. rewrite read_inside by lia.
  cbn [position logentries emitted]. fold p1. fold lbytes.
  unfold bind at 1. rewrite Hseven. unfold read at 1.
  change (7 - 8 <? -1) with false. change (7 - 8 <? 0) with true.
  cbn [position logentries emitted]. fold p2. fold body.
  unfold bind at 1, call_parse_tlc. rewrite Hparse.
  unfold bind at 1, count_logs. cbn [position logentries emitted].
  unfold bind at 1.
  change (output_info (DecodedTlcLogs (len (tlc_entries tlc))) outstream true)
    with (@nil event).
  rewrite emit_nil. unfold bind at 1.
  rewrite (@output_logs_bytes L outstream _ _ Hout). reflexivity.
Qed.

(** An exception that leaves a pass of the scan ends the decoding of the
    file: [process_file] catches it and reports the file as one that could
    not be opened; what was written before stays written, and nothing
    behind the record is decoded. *)
Theorem raising_pass_skips_file :
  forall (n : nat) (s s' : scan_state) (x : exn),
    scan_reaches L fuel data instream sourcefile outstream n scan_initial s ->
    scan_iteration L fuel data instream sourcefile outstream s
      = (Raise x, s') ->
    endswith sourcefile ".gz" || endswith sourcefile ".zst" = true ->
    forall rounds, (n < rounds)%nat ->
      process_file L fuel data instream sourcefile outstream rounds =
      (Ok tt,
       {| position := position s'; logentries := logentries s';
          emitted := emitted s' ++
            output_info (SkippedFile sourcefile) outstream false |}).
Proof.
  intros n s s' x Hr Hit Hname rounds Hrounds.
  unfold process_file. rewrite Hname. unfold decode_llogv5.
  replace rounds with (n + S (rounds - S n))%nat by lia.
  rewrite (@scan_loop_reaches L fuel data instream sourcefile outstream
             n scan_initial s Hr).
  simpl. unfold bind at 1. rewrite Hit. reflexivity.
Qed.

(** On a stream without a [name], an lz4 record whose block does not
    decompress ends the decoding of the file: the [AttributeError] of the
    handler leaves [decode_llogv5], no 'Skipped entry' message is emitted,
    and [process_file] reports the file as one that could not be opened. *)
Theorem failed_block_on_nameless_stream_skips_file :
  forall (n : nat) (s s1 : scan_state) (parts : lz4_parts),
    has_name instream = false ->
    scan_reaches L fuel data instream sourcefile outstream n scan_initial s ->
    tag_at data (position s) = magic ->
    read_lz4_parts data outstream
      {| position := position s + 2; logentries := logentries s;
         emitted := emitted s |} = (Ok parts, s1) ->
    lz4_block_decompress L (part_compressed parts)
                         (part_ldecompressed parts + 1) = None ->
    endswith sourcefile ".gz" || endswith sourcefile ".zst" = true ->
    forall rounds, (n < rounds)%nat ->
      process_file L fuel data instream sourcefile outstream rounds =
      (Ok tt,
       {| position := position s1; logentries := logentries s1;
          emitted := emitted s1 ++
            output_info (SkippedFile sourcefile) outstream false |}).
Proof.
  intros n s s1 parts Hname Hr Htag Hparts Hfail Hext rounds Hrounds.
  unfold process_file. rewrite Hext. unfold decode_llogv5.
  replace rounds with (n + S (rounds - S n))%nat by lia.
  rewrite (@scan_loop_reaches L fuel data instream sourcefile outstream
             n scan_initial s Hr).
  simpl. unfold bind at 1.
  rewrite (@scan_iteration_magic L fuel data instream sourcefile outstream
             s Htag).
  rewrite (@failed_block_path L data instream outstream (position s)
             _ s1 parts Hparts Hfail).
  rewrite Hname. reflexivity.
Qed.

End ShortRecords.

(** ** Decoding a directory *)

Section DirectoryFacts.

Variable L : library.
Variable fuel : nat.
Variable rounds : nat.
Variables sourcedir targetdir : string.

Local Abbreviation pass := (process_srcfile L fuel rounds sourcedir targetdir).
Local Abbreviation run := (process_dir L fuel rounds sourcedir targetdir).
Local Abbreviation target := (target_of targetdir).

(** [process_file] catches what [decode_llogv5] raises. *)
Lemma process_file_never_raises (data : bytes) (instream : reader)
    (sourcefile : string) (outstream : fileobj) (x : exn) :
  fst (process_file L fuel data instream sourcefile outstream rounds)
  <> Raise x.
Proof.
  unfold process_file.
  destruct (endswith sourcefile ".gz" || endswith sourcefile ".zst");
    [|discriminate].
  destruct (decode_llogv5 L fuel data instream sourcefile outstream rounds)
    as [[u|y|] s]; discriminate.
Qed.

Lemma pass_existing (srcfile : string * bytes) (st : dir_state)
    (content : bytes) :
  target_files st (target (fst srcfile)) = Some content ->
  pass srcfile st =
  (Ok NextFile,
   {| target_files := target_files st;
      console := console st ++
        [SkippedExisting (path_join sourcedir (fst srcfile))] |}).
Proof.
  unfold process_srcfile, target_of, gz_output_file. intros ->. reflexivity.
Qed.

Lemma pass_fresh (srcfile : string * bytes) (st : dir_state) :
  target_files st (target (fst srcfile)) = None ->
  let final :=
    snd (process_file L fuel (snd srcfile)
           (source_stream sourcedir (fst srcfile))
           (path_join sourcedir (fst srcfile))
           (target_stream targetdir (fst srcfile)) rounds) in
  snd (pass srcfile st) =
    {| target_files :=
         write_file (target_files st) (target (fst srcfile))
                    (file_content (emitted final));
       console := console st ++ map FromFile (printed (emitted final)) |}
  /\ (fst (pass srcfile st) = Ok NextFile \/
      fst (pass srcfile st) = OutOfFuel).
Proof.
  intros Hnone. unfold process_srcfile.
  change (if gz_output_file
          then path_join targetdir (fst srcfile ++ ".csv.gz")
          else path_join targetdir (fst srcfile ++ ".csv"))
    with (target (fst srcfile)).
  rewrite Hnone.
  change {| name := target (fst srcfile); is_sys_stdout := false |}
    with (target_stream targetdir (fst srcfile)).
  change (opened (path_join sourcedir (fst srcfile)))
    with (source_stream sourcedir (fst srcfile)).
  pose proof (@process_file_never_raises (snd srcfile)
                (source_stream sourcedir (fst srcfile))
                (path_join sourcedir (fst srcfile))
                (target_stream targetdir (fst srcfile))) as Hnever.
  destruct (process_file L fuel (snd srcfile)
              (source_stream sourcedir (fst srcfile))
              (path_join sourcedir (fst srcfile))
              (target_stream targetdir (fst srcfile)) rounds)
    as [[u|x|] final].
  - split; [reflexivity|left; reflexivity].
  - exfalso. exact (Hnever x eq_refl).
  - split; [reflexivity|right; reflexivity].
Qed.

Lemma pass_never_ends_dir (srcfile : string * bytes) (st : dir_state) :
  fst (pass srcfile st) = Ok NextFile \/ fst (pass srcfile st) = OutOfFuel.
Proof.
  destruct (target_files st (target (fst srcfile))) as [content|] eqn:E.
  - rewrite (pass_existing _ _ E). left. reflexivity.
  - exact (proj2 (pass_fresh _ _ E)).
Qed.

Lemma write_file_same (files : string -> option bytes) (path : string)
    (content : bytes) :
  write_file files path content path = Some content.
Proof. unfold write_file. now rewrite String.eqb_refl. Qed.

Lemma write_file_other (files : string -> option bytes) (path p : string)
    (content : bytes) :
  p <> path -> write_file files path content p = files p.
Proof.
  intros Hp. unfold write_file.
  destruct (String.eqb_spec p path); [contradiction|reflexivity].
Qed.

Lemma pass_outside (srcfile : string * bytes) (st : dir_state) (p : string) :
  p <> target (fst srcfile) ->
  target_files (snd (pass srcfile st)) p = target_files st p.
Proof.
  intros Hp.
  destruct (target_files st (target (fst srcfile))) as [content|] eqn:E.
  - rewrite (pass_existing _ _ E). reflexivity.
  - rewrite (proj1 (pass_fresh _ _ E)). simpl.
    apply write_file_other. exact Hp.
Qed.

Lemma pass_keeps (srcfile : string * bytes) (st : dir_state) (p : string)
    (content : bytes) :
  target_files st p = Some content ->
  target_files (snd (pass srcfile st)) p = Some content.
Proof.
  intros Hp.
  destruct (String.eqb_spec p (target (fst srcfile))) as [->|Hne].
  - rewrite (pass_existing _ _ Hp). exact Hp.
  - rewrite pass_outside by exact Hne. exact Hp.
Qed.

Lemma pass_creates (srcfile : string * bytes) (st : dir_state) :
  target_files (snd (pass srcfile st)) (target (fst srcfile)) <> None.
Proof.
  destruct (target_files st (target (fst srcfile))) as [content|] eqn:E.
  - rewrite (pass_existing _ _ E). simpl. rewrite E. discriminate.
  - rewrite (proj1 (pass_fresh _ _ E)). simpl. rewrite write_file_same.
    discriminate.
Qed.

Lemma run_step (srcfile : string * bytes) (more : list (string * bytes))
    (st : dir_state) :
  (fst (pass srcfile st) = Ok NextFile /\
   run (srcfile :: more) st = run more (snd (pass srcfile st))) \/
  (fst (pass srcfile st) = OutOfFuel /\
   run (srcfile :: more) st = (OutOfFuel, snd (pass srcfile st))).
Proof.
  simpl. destruct (pass_never_ends_dir srcfile st) as [H|H];
    destruct (pass srcfile st) as [r st']; simpl in *; subst r; auto.
Qed.

Lemma run_keeps (src : list (string * bytes)) (st : dir_state) (p : string)
    (content : bytes) :
  target_files st p = Some content ->
  target_files (snd (run src st)) p = Some content.
Proof.
  revert st. induction src as [|srcfile more IH]; intros st Hp;
    [exact Hp|].
  destruct (run_step srcfile more st) as [[_ ->]|[_ ->]].
  - apply IH. apply pass_keeps. exact Hp.
  - simpl. apply pass_keeps. exact Hp.
Qed.

Lemma run_outside (src : list (string * bytes)) (st : dir_state)
    (p : string) :
  ~ In p (map (fun srcfile => target (fst srcfile)) src) ->
  target_files (snd (run src st)) p = target_files st p.
Proof.
  revert st. induction src as [|srcfile more IH]; intros st Hp;
    [reflexivity|].
  assert (Hne : p <> target (fst srcfile)).
  { intros ->. apply Hp. left. reflexivity. }
  assert (Hmore : ~ In p (map (fun srcfile => target (fst srcfile)) more)).
  { intros Hin. apply Hp. right. exact Hin. }
  destruct (run_step srcfile more st) as [[_ ->]|[_ ->]].
  - rewrite IH by exact Hmore. apply pass_outside. exact Hne.
  - simpl. apply pass_outside. exact Hne.
Qed.

Lemma run_app (before after : list (string * bytes)) (st : dir_state) :
  fst (run (before ++ after) st) = Ok tt ->
  fst (run before st) = Ok tt /\
  run (before ++ after) st = run after (snd (run before st)).
Proof.
  revert st. induction before as [|srcfile more IH]; intros st Hok.
  - split; reflexivity.
  - change ((srcfile :: more) ++ after) with (srcfile :: (more ++ after))
      in *.
    destruct (run_step srcfile (more ++ after) st) as [[Hc Hr]|[Hc Hr]].
    + destruct (run_step srcfile more st) as [[_ Hr']|[Hc' _]].
      * rewrite Hr, Hr'. apply IH. rewrite <- Hr. exact Hok.
      * rewrite Hc in Hc'. discriminate.
    + rewrite Hr in Hok. discriminate.
Qed.

Lemma run_creates (src : list (string * bytes)) (st st1 : dir_state) :
  run src st = (Ok tt, st1) ->
  forall srcfile, In srcfile src ->
    target_files st1 (target (fst srcfile)) <> None.
Proof.
  revert st. induction src as [|srcfile more IH]; intros st Hrun x Hin;
    [destruct Hin|].
  destruct (run_step srcfile more st) as [[_ Hr]|[_ Hr]];
    rewrite Hr in Hrun; [|discriminate].
  destruct Hin as [<-|Hin].
  - pose proof (pass_creates srcfile st) as Hc.
    destruct (target_files (snd (pass srcfile st)) (target (fst srcfile)))
      as [content|] eqn:E; [|contradiction].
    pose proof (run_keeps more _ _ E) as Hk. rewrite Hrun in Hk.
    simpl in Hk. rewrite Hk. discriminate.
  - exact (IH _ Hrun x Hin).
Qed.

Lemma run_all_existing (src : list (string * bytes)) (st : dir_state) :
  (forall srcfile, In srcfile src ->
     target_files st (target (fst srcfile)) <> None) ->
  run src st =
  (Ok tt,
   {| target_files := target_files st;
      console := console st ++
        map (fun srcfile => SkippedExisting (path_join sourcedir (fst srcfile)))
            src |}).
Proof.
  revert st. induction src as [|srcfile more IH]; intros st Hall.
  - simpl. rewrite app_nil_r. now destruct st.
  - destruct (target_files st (target (fst srcfile))) as [content|] eqn:E.
    + simpl. rewrite (pass_existing _ _ E). rewrite IH.
      * simpl. now rewrite <- app_assoc.
      * intros x Hx. simpl. apply Hall. right. exact Hx.
    + exfalso. apply (Hall srcfile); [left; reflexivity|exact E].
Qed.

(** Whatever the source directory holds and however the run ends, a file
    that is in the target directory stays there with its content:
    [process_dir] writes to, and removes, only files it has created. *)
Theorem existing_targets_are_kept :
  forall (src : list (string * bytes)) (st : dir_state) (path : string)
         (content : bytes),
    target_files st path = Some content ->
    target_files (snd (run src st)) path = Some content.
Proof.
  intros src st path content Hp. apply run_keeps. exact Hp.
Qed.

(** After a run that came to its end, a second run over the same source
    directory decodes nothing: every entry is reported as existing in the
    destination, also those whose decoding failed or stopped early in the
    first run, and no file changes. *)
Theorem second_run_decodes_nothing :
  forall (src : list (string * bytes)) (st st1 : dir_state),
    run src st = (Ok tt, st1) ->
    run src st1 =
    (Ok tt,
     {| target_files := target_files st1;
        console := console st1 ++
          map (fun srcfile =>
                 SkippedExisting (path_join sourcedir (fst srcfile))) src |}).
Proof.
  intros src st st1 Hrun. apply run_all_existing.
  exact (run_creates _ _ Hrun).
Qed.

(** The file created for an entry holds exactly the bytes [process_file]
    writes for it, with the target file as its output stream; it is
    created, empty, also for an entry that [process_file] skips. *)
Theorem new_target_holds_entries_of_source :
  forall (before after : list (string * bytes)) (srcname : string)
         (data : bytes) (st st1 : dir_state),
    run (before ++ (srcname, data) :: after) st = (Ok tt, st1) ->
    target_files st (target srcname) = None ->
    ~ In (target srcname)
         (map (fun srcfile => target (fst srcfile)) before) ->
    target_files st1 (target srcname) =
    Some (file_content
            (emitted
               (snd (process_file L fuel data
                       (source_stream sourcedir srcname)
                       (path_join sourcedir srcname)
                       (target_stream targetdir srcname) rounds)))).
Proof.
  intros before after srcname data st st1 Hrun Hnone Hfresh.
  assert (Hok : fst (run (before ++ (srcname, data) :: after) st) = Ok tt)
    by now rewrite Hrun.
  destruct (run_app before _ st Hok) as [_ Hsplit].
  rewrite Hsplit in Hrun.
  set (stb := snd (run before st)) in *.
  assert (Hb : target_files stb (target srcname) = None).
  { unfold stb. rewrite run_outside by exact Hfresh. exact Hnone. }
  destruct (run_step (srcname, data) after stb) as [[_ Hr]|[_ Hr]];
    rewrite Hr in Hrun; [|discriminate].
  pose proof (proj1 (pass_fresh (srcname, data) stb Hb)) as Hpass.
  cbn [fst snd] in Hpass.
  assert (Hc : target_files (snd (pass (srcname, data) stb)) (target srcname)
               = Some (file_content
                         (emitted
                            (snd (process_file L fuel data
                                    (source_stream sourcedir srcname)
                                    (path_join sourcedir srcname)
                                    (target_stream targetdir srcname)
                                    rounds))))).
  { rewrite Hpass. simpl. apply write_file_same. }
  pose proof (run_keeps after _ _ Hc) as Hk.
  rewrite Hrun in Hk. exact Hk.
Qed.

End DirectoryFacts.

(** ** The properties on the sample streams *)

Lemma even_padding_is_skipped_witness :
  scan_reaches sample_library 1 [x00; x00; x00; x00; xff] sample_instream
               "tlog.1706323123.log.gz" sample_outstream 2 scan_initial
               {| position := 4; logentries := 0; emitted := [] |}.
Proof.
  apply (@even_padding_is_skipped sample_library 1
           [x00; x00; x00; x00; xff] sample_instream
           "tlog.1706323123.log.gz" sample_outstream 2 scan_initial [xff]).
  - simpl. lia.
  - reflexivity.
Defined.

Lemma end_of_stream_ends_scan_witness :
  decode_llogv5 sample_library 1 two_entry_block sample_instream
                "tlog.1706323123.log.gz" sample_outstream 2 =
  (Ok tt,
   {| position := 61; logentries := 2;
      emitted :=
        [WroteBytes (list_byte_of_string "abcd" ++ [x0a]);
         WroteBytes (list_byte_of_string "123456" ++ [x0a]);
         Printed (DoneFile "tlog.1706323123.log.gz" 2)] |}).
Proof.
  refine (@end_of_stream_ends_scan sample_library 1 two_entry_block
            sample_instream "tlog.1706323123.log.gz" sample_outstream 1
            {| position := 61; logentries := 2;
               emitted :=
                 [WroteBytes (list_byte_of_string "abcd" ++ [x0a]);
                  WroteBytes (list_byte_of_string "123456" ++ [x0a])] |}
            (@reach_round sample_library 1 two_entry_block sample_instream
               "tlog.1706323123.log.gz" sample_outstream O scan_initial
               {| position := 61; logentries := 2;
               emitted :=
                 [WroteBytes (list_byte_of_string "abcd" ++ [x0a]);
                  WroteBytes (list_byte_of_string "123456" ++ [x0a])] |}
               _ _ (reach_here _ _ _ _ _ _ _)) _ 2%nat _).
  - vm_compute. reflexivity.
  - vm_compute. discriminate.
  - apply Nat.lt_1_2.
Defined.

Lemma odd_padding_ends_scan_witness :
  decode_llogv5 sample_library 1 [x00; x41] sample_instream
                "tlog.1706323123.log.gz" sample_outstream 1 =
  (Ok tt,
   {| position := 2; logentries := 0;
      emitted := [Printed (UnknownHeader "tlog.1706323123.log.gz"
                                         [x00; x41] 0)] |}).
Proof.
  refine (@odd_padding_ends_scan sample_library 1 [x00; x41] sample_instream
            "tlog.1706323123.log.gz" sample_outstream O scan_initial x41 []
            (reach_here _ _ _ _ _ _ _) eq_refl _ 1%nat _).
  - discriminate.
  - apply Nat.lt_0_1.
Defined.

Lemma failed_block_with_empty_trailer_resumes_witness :
  after_trailer corrupt_with_empty_trailer 21 = 23 /\
  scan_reaches sample_library 1 corrupt_with_empty_trailer sample_instream
               "tlog.1706323123.log.gz" sample_outstream 2 scan_initial
               {| position := 23; logentries := 0;
                  emitted :=
                    [Printed (SkippedEntry 0 "tlog.1706323123.log.gz")] |}.
Proof.
  exact (@failed_block_with_empty_trailer_resumes sample_library 1
           corrupt_with_empty_trailer sample_instream
           "tlog.1706323123.log.gz" sample_outstream scan_initial
           {| position := 21; logentries := 0; emitted := [] |}
           {| part_entrycount := 1; part_lentrycounts := 2;
              part_ldecompressed := 1; part_entrieslengths := [x00; x01];
              part_compressed := [x10] |}
           eq_refl eq_refl eq_refl eq_refl eq_refl).
Defined.

Lemma logentries_counts_written_witness :
  logentries
    (snd (decode_llogv5 sample_library 5 two_entry_envelope sample_instream
                        "tlog.1706323123.log.gz" sample_outstream 2))
  = written
      (emitted
         (snd (decode_llogv5 sample_library 5 two_entry_envelope
                             sample_instream "tlog.1706323123.log.gz"
                             sample_outstream 2))).
Proof.
  exact (@logentries_counts_written sample_library 5 two_entry_envelope
           sample_instream "tlog.1706323123.log.gz" sample_outstream
           eq_refl 2%nat).
Defined.

Lemma summary_reports_entries_written_witness :
  decode_llogv5 sample_library 1 two_entry_block sample_instream
                "tlog.1706323123.log.gz" sample_outstream 2 =
  (Ok tt,
   {| position := 61; logentries := 2;
      emitted :=
        [WroteBytes (list_byte_of_string "abcd" ++ [x0a]);
         WroteBytes (list_byte_of_string "123456" ++ [x0a]);
         Printed (DoneFile "tlog.1706323123.log.gz" 2)] |}).
Proof.
  refine (@summary_reports_entries_written sample_library 1 two_entry_block
            sample_instream "tlog.1706323123.log.gz" sample_outstream
            eq_refl 1
            {| position := 61; logentries := 2;
               emitted :=
                 [WroteBytes (list_byte_of_string "abcd" ++ [x0a]);
                  WroteBytes (list_byte_of_string "123456" ++ [x0a])] |}
            (@reach_round sample_library 1 two_entry_block sample_instream
               "tlog.1706323123.log.gz" sample_outstream O scan_initial
               {| position := 61; logentries := 2;
               emitted :=
                 [WroteBytes (list_byte_of_string "abcd" ++ [x0a]);
                  WroteBytes (list_byte_of_string "123456" ++ [x0a])] |}
               _ _ (reach_here _ _ _ _ _ _ _)) _ 2%nat _).
  - vm_compute. reflexivity.
  - vm_compute. discriminate.
  - apply Nat.lt_1_2.
Defined.

Lemma batch_run_prints_and_writes_bytes_witness :
  forallb batch_event
    (emitted
       (snd (process_file sample_library 5 bad_field_then_block
                          sample_instream "tlog.1706323123.log.gz"
                          sample_outstream 3))) = true.
Proof.
  exact (@batch_run_prints_and_writes_bytes sample_library 5
           bad_field_then_block sample_instream "tlog.1706323123.log.gz"
           sample_outstream 3%nat eq_refl eq_refl).
Defined.

Lemma single_file_run_events_witness :
  forallb single_file_event
    (emitted
       (snd (process_file sample_library 5 padded_tlc_record
                          sample_instream "tlog.1706323123.log.gz"
                          sample_stdout 3))) = true.
Proof.
  exact (@single_file_run_events sample_library 5 padded_tlc_record
           sample_instream "tlog.1706323123.log.gz" sample_stdout 3%nat
           eq_refl eq_refl).
Defined.

Lemma undecodable_entry_reported_as_lz4_failure_witness :
  lz4_record sample_library undecodable_second_entry sample_instream
             sample_stdout 0
             {| position := 2; logentries := 0; emitted := [] |} =
  (Ok Continue,
   {| position := 25; logentries := 2;
      emitted :=
        [WroteText ("A" ++ newline);
         Logged (SkippedEntry 0 "tlog.1706323123.log.gz")] |}) /\
  lz4_record sample_library undecodable_second_entry sample_zst_reader
             sample_stdout 0
             {| position := 2; logentries := 0; emitted := [] |} =
  (Raise AttributeError,
   {| position := 25; logentries := 2;
      emitted := [WroteText ("A" ++ newline)] |}).
Proof.
  assert (Hbefore : Forall2 (fun entry text =>
                               bytes_decode sample_library entry = Some text)
                            [[x41]] ["A"%string]).
  { constructor; [reflexivity|constructor]. }
  split.
  - exact (@undecodable_entry_reported_as_lz4_failure sample_library
             undecodable_second_entry sample_instream sample_stdout eq_refl
             0 {| position := 2; logentries := 0; emitted := [] |}
             {| position := 25; logentries := 0; emitted := [] |}
             {| part_entrycount := 2; part_lentrycounts := 4;
                part_ldecompressed := 2;
                part_entrieslengths := [x00; x01; x00; x01];
                part_compressed := [x20; x41; xff] |}
             [x41; xff] [[x41]] ["A"%string] [xff] []
             eq_refl eq_refl eq_refl Hbefore eq_refl).
  - exact (@undecodable_entry_reported_as_lz4_failure sample_library
             undecodable_second_entry sample_zst_reader sample_stdout
             eq_refl
             0 {| position := 2; logentries := 0; emitted := [] |}
             {| position := 25; logentries := 0; emitted := [] |}
             {| part_entrycount := 2; part_lentrycounts := 4;
                part_ldecompressed := 2;
                part_entrieslengths := [x00; x01; x00; x01];
                part_compressed := [x20; x41; xff] |}
             [x41; xff] [[x41]] ["A"%string] [xff] []
             eq_refl eq_refl eq_refl Hbefore eq_refl).
Defined.

Lemma zbuf_returns_frame_payload_witness :
  parse_tlc sample_library 2 size_then_frame sample_outstream
            sample_instream = (Ok two_logs, []).
Proof.
  refine (@zbuf_returns_frame_payload sample_library size_then_frame
            sample_outstream sample_instream 1 _ _ 16
            (skipn 10 size_then_frame)
            (@walk_field sample_library size_then_frame sample_outstream
               sample_instream any_field O tlc_initial 12
               {| pointer := 6; lunzipped := 0; value := Some 84;
                  array := None |}
               {| pointer := 6; lunzipped := 84; value := Some 84;
                  array := None |} _ [] eq_refl I eq_refl
               (walk_here _ _ _ _ _ _))
            eq_refl eq_refl _ eq_refl _ 2%nat _).
  - discriminate.
  - discriminate.
  - apply Nat.lt_1_2.
Defined.

Lemma walk_to_end_gives_empty_buffer_witness :
  parse_tlc sample_library 2 [x00; x01; x02; x41; x42] sample_outstream
            sample_instream = (Ok [], []).
Proof.
  refine (@walk_to_end_gives_empty_buffer sample_library
            [x00; x01; x02; x41; x42] sample_outstream sample_instream 1
            {| pointer := 5; lunzipped := 0; value := None;
               array := Some [x41; x42] |}
            (@walk_field sample_library [x00; x01; x02; x41; x42]
               sample_outstream sample_instream any_field O tlc_initial 1
               _ _ _ [] eq_refl I eq_refl (walk_here _ _ _ _ _ _))
            _ 2%nat _).
  - vm_compute. discriminate.
  - apply Nat.lt_1_2.
Defined.

Lemma unassigned_local_raises_witness :
  parse_tlc sample_library 1 [x00; x0c; x00] sample_outstream
            sample_instream = (Raise UnboundLocalError, []).
Proof.
  refine (@unassigned_local_raises sample_library [x00; x0c; x00]
            sample_outstream sample_instream O tlc_initial
            {| pointer := 3; lunzipped := 0; value := None;
               array := Some [] |} 12
            (walk_here _ _ _ _ _ _) eq_refl
            (or_introl (conj (or_introl eq_refl) eq_refl)) 1%nat _).
  apply Nat.lt_0_1.
Defined.

Lemma short_tlc_length_raises_witness :
  tlc_record sample_library 1 [xaa; x01; x00; x00] sample_instream
             sample_outstream 0
             {| position := 2; logentries := 0; emitted := [] |} =
  (Raise ValueError, {| position := 4; logentries := 0; emitted := [] |}).
Proof.
  refine (@short_tlc_length_raises sample_library 1 [xaa; x01; x00; x00]
            sample_instream sample_outstream 0
            {| position := 2; logentries := 0; emitted := [] |} _).
  vm_compute. reflexivity.
Defined.

Lemma tlc_length_seven_reads_to_end_witness :
  tlc_record sample_library 2 length_seven_record sample_instream
             sample_outstream 0
             {| position := 2; logentries := 0; emitted := [] |} =
  (Ok Continue, {| position := 13; logentries := 0; emitted := [] |}).
Proof.
  exact (@tlc_length_seven_reads_to_end sample_library 2 length_seven_record
           sample_instream sample_outstream 0
           {| position := 2; logentries := 0; emitted := [] |}
           [] [] eq_refl eq_refl eq_refl).
Defined.

Lemma raising_pass_skips_file_witness :
  process_file sample_library 5 bad_field_then_block sample_instream
               "tlog.1706323123.log.gz" sample_outstream 1 =
  (Ok tt,
   {| position := 11; logentries := 0;
      emitted := [Printed (SkippedFile "tlog.1706323123.log.gz")] |}).
Proof.
  refine (@raising_pass_skips_file sample_library 5 bad_field_then_block
            sample_instream "tlog.1706323123.log.gz" sample_outstream O
            scan_initial
            {| position := 11; logentries := 0; emitted := [] |} IndexError
            (reach_here _ _ _ _ _ _ _) eq_refl eq_refl 1%nat _).
  apply Nat.lt_0_1.
Defined.

Lemma existing_targets_are_kept_witness :
  target_files
    (snd (process_dir sample_library 5 3 "/var/log/forti" "/tmp/out"
            sample_listing
            {| target_files :=
                 write_file (fun _ => None)
                            "/tmp/out/tlog.1706323123.log.gz.csv" [x41];
               console := [] |}))
    "/tmp/out/tlog.1706323123.log.gz.csv" = Some [x41].
Proof.
  exact (@existing_targets_are_kept sample_library 5 3 "/var/log/forti"
           "/tmp/out" sample_listing
           {| target_files :=
                write_file (fun _ => None)
                           "/tmp/out/tlog.1706323123.log.gz.csv" [x41];
              console := [] |}
           "/tmp/out/tlog.1706323123.log.gz.csv" [x41] eq_refl).
Defined.

Lemma second_run_decodes_nothing_witness :
  process_dir sample_library 5 3 "/var/log/forti" "/tmp/out"
              sample_listing after_first_run =
  (Ok tt,
   {| target_files := target_files after_first_run;
      console := console after_first_run ++
        [SkippedExisting "/var/log/forti/tlog.1706323123.log.gz";
         SkippedExisting "/var/log/forti/notes.txt"] |}).
Proof.
  assert (Hrun : process_dir sample_library 5 3 "/var/log/forti" "/tmp/out"
                   sample_listing empty_target_dir
                 = (Ok tt, after_first_run)).
  { vm_compute. reflexivity. }
  exact (@second_run_decodes_nothing sample_library 5 3 "/var/log/forti"
           "/tmp/out" sample_listing empty_target_dir after_first_run
           Hrun).
Defined.

Lemma new_target_holds_entries_of_source_witness :
  target_files after_first_run "/tmp/out/tlog.1706323123.log.gz.csv"
  = Some (list_byte_of_string "abcd" ++ [x0a]
          ++ list_byte_of_string "123456" ++ [x0a]).
Proof.
  assert (Hrun : process_dir sample_library 5 3 "/var/log/forti" "/tmp/out"
                   ([] ++ ("tlog.1706323123.log.gz"%string, two_entry_block)
                       :: [("notes.txt"%string,
                            list_byte_of_string "to do")])
                   empty_target_dir
                 = (Ok tt, after_first_run)).
  { vm_compute. reflexivity. }
  assert (Hnone : target_files empty_target_dir
                    (target_of "/tmp/out" "tlog.1706323123.log.gz") = None)
    by reflexivity.
  assert (Hfresh : ~ In (target_of "/tmp/out" "tlog.1706323123.log.gz")
                        (map (fun srcfile : string * bytes =>
                                target_of "/tmp/out" (fst srcfile)) []))
    by (intros []).
  pose proof (@new_target_holds_entries_of_source sample_library 5 3
                "/var/log/forti" "/tmp/out" []
                [("notes.txt"%string, list_byte_of_string "to do")]
                "tlog.1706323123.log.gz" two_entry_block empty_target_dir
                after_first_run Hrun Hnone Hfresh) as H.
  vm_compute in H. vm_compute. exact H.
Defined.

Lemma failed_block_on_nameless_stream_skips_file_witness :
  process_file sample_library 1 corrupt_then_valid sample_zst_reader
               "tlog.1706323123.log.zst" sample_outstream 1 =
  (Ok tt,
   {| position := 21; logentries := 0;
      emitted := [Printed (SkippedFile "tlog.1706323123.log.zst")] |}).
Proof.
  refine (@failed_block_on_nameless_stream_skips_file sample_library 1
            corrupt_then_valid sample_zst_reader "tlog.1706323123.log.zst"
            sample_outstream O scan_initial
            {| position := 21; logentries := 0; emitted := [] |}
            {| part_entrycount := 1; part_lentrycounts := 2;
               part_ldecompressed := 1; part_entrieslengths := [x00; x01];
               part_compressed := [x10] |}
            eq_refl (reach_here _ _ _ _ _ _ _) eq_refl eq_refl eq_refl
            eq_refl 1%nat _).
  apply Nat.lt_0_1.
Defined.
